(** * sign-aws-request: the AWS Bedrock request mutator

    A shallow embedding of
    [src/proxy/middleware/request/mutators/sign-aws-request.ts]:
    credential extraction ([getCredentialParts]), the strict body projection
    ([getStrictlyValidatedBodyForAws]), the construction of the outgoing
    request and its signing ([signAwsRequest], [sign]).

    JavaScript strings are [string]s (sequences of code units), JavaScript
    objects used as maps are [gmap string _], exceptions are the left
    summand of a sum, and the logger and the request manager are threaded as
    explicit state. *)

From Stdlib Require Import Ascii String QArith.
From stdpp Require Import base option list strings gmap fin_maps sets.

Local Open Scope string_scope.
Local Open Scope list_scope.

(** ** JavaScript strings *)

Module JsString.

(** [s.startsWith(p)] *)
Fixpoint startsWith (p s : string) : bool :=
  match p, s with
  | EmptyString, _ => true
  | String a p', String b s' => if Ascii.eqb a b then startsWith p' s' else false
  | String _ _, EmptyString => false
  end.

(** [s.includes(sub)]: [sub] occurs in [s] at some position. *)
Fixpoint includes (s sub : string) : bool :=
  startsWith sub s ||
  match s with
  | EmptyString => false
  | String _ s' => includes s' sub
  end.

(** [s.split(sep)] for a one-character separator: the segments between
    the occurrences of [sep], in order; never the empty array. *)
Fixpoint split (sep : ascii) (s : string) : list string :=
  match s with
  | EmptyString => [EmptyString]
  | String c s' =>
      if Ascii.eqb c sep then EmptyString :: split sep s'
      else match split sep s' with
           | seg :: rest => String c seg :: rest
           | [] => [String c EmptyString]
           end
  end.

(** [c] occurs in [s]. *)
Fixpoint has_char (c : ascii) (s : string) : bool :=
  match s with
  | EmptyString => false
  | String a s' => Ascii.eqb a c || has_char c s'
  end.

Fixpoint drop (n : nat) (s : string) : string :=
  match n, s with
  | O, _ => s
  | S n', String _ s' => drop n' s'
  | S _, EmptyString => EmptyString
  end.

(** The first occurrence of [pat] in [s]: the text before it and the text
    after it. *)
Fixpoint find_first (pat s : string) : option (string * string) :=
  if startsWith pat s then Some (EmptyString, drop (String.length pat) s)
  else match s with
       | EmptyString => None
       | String c s' =>
           match find_first pat s' with
           | Some (before, after) => Some (String c before, after)
           | None => None
           end
       end.

(** GetSubstitution of ECMA-262 for a string pattern (no capture groups):
    [$$] is a dollar sign, [$&] the matched text, [$`] the text before
    the match, [$'] the text after it; any other [$] stands for itself. *)
Fixpoint GetSubstitution (matched before after template : string) : string :=
  match template with
  | EmptyString => EmptyString
  | String c r =>
      if Ascii.eqb c "$"%char then
        match r with
        | String d r' =>
            if Ascii.eqb d "$"%char then String "$"%char (GetSubstitution matched before after r')
            else if Ascii.eqb d "&"%char then matched +:+ GetSubstitution matched before after r'
            else if Ascii.eqb d "`"%char then before +:+ GetSubstitution matched before after r'
            else if Ascii.eqb d "'"%char then after +:+ GetSubstitution matched before after r'
            else String c (GetSubstitution matched before after r)
        | EmptyString => String c EmptyString
        end
      else String c (GetSubstitution matched before after r)
  end.

(** [s.replace(pat, repl)] with a string pattern: only the first
    occurrence is replaced. *)
Definition replace (s pat repl : string) : string :=
  match find_first pat s with
  | Some (before, after) => before +:+ GetSubstitution pat before after repl +:+ after
  | None => s
  end.

(** [!s] for a possibly undefined string: undefined and the empty string
    are falsy. *)
Definition falsy (o : option string) : bool :=
  match o with
  | None => true
  | Some EmptyString => true
  | Some (String _ _) => false
  end.

End JsString.

(** ** JavaScript values, exceptions, the logger *)

(** The values a request body holds: JSON values, and [undefined] for a
    property that is absent or set to undefined. *)
#[warnings="-register-all"] Inductive jsval : Type :=
  | JUndefined
  | JNull
  | JBool (b : bool)
  | JNum (q : Q)
  | JStr (s : string)
  | JArr (items : list jsval)
  | JObj (props : list (string * jsval)).

(** [obj[k]]: undefined when the property is absent. *)
Definition prop (obj : gmap string jsval) (k : string) : jsval :=
  default JUndefined (obj !! k).

(** ToBoolean. *)
Definition truthy (v : jsval) : bool :=
  match v with
  | JUndefined | JNull => false
  | JBool b => b
  | JNum q => negb (Qeq_bool q 0)
  | JStr s => negb (String.eqb s "")
  | JArr _ | JObj _ => true
  end.

Inductive ZodIssueCode : Type :=
  | invalid_type
  | unrecognized_keys (keys : gset string)
  | custom.

Record ZodIssue := {
  issue_code : ZodIssueCode;
  issue_path : list string;
  issue_message : string;
}.

(** What the mutator can throw: [new Error(message)] at its own two throw
    sites, the [TypeError] of a value that has no primitive, the [ZodError]
    of a failed [parse], and whatever the key pool raises. *)
Inductive exn : Type :=
  | Error (what : string)
  | TypeError (what : string)
  | ZodError (issues : list ZodIssue)
  | KeyPoolError (what : string).

(** [Object.hasOwn(obj, k)] on the properties of a JSON object. *)
Definition has_own (props : list (string * jsval)) (k : string) : bool :=
  existsb (λ kv, String.eqb kv.1 k) props.

(** The texts of the items of an array, in order, for a conversion [text]
    that may throw: what [Array.prototype.join] collects. *)
Definition item_texts {A} (text : A → exn + string)
  : list A → exn + list string :=
  fix collect (l : list A) : exn + list string :=
    match l with
    | [] => inr []
    | x :: l' =>
        match text x with
        | inl e => inl e
        | inr s =>
            match collect l' with
            | inl e => inl e
            | inr ss => inr (s :: ss)
            end
        end
    end.

(** [array.find(callback)] with a callback that may throw: the callback is
    called on the elements in order, up to the first one it accepts. *)
Fixpoint Array_find {A} (callback : A → exn + bool) (l : list A)
  : exn + option A :=
  match l with
  | [] => inr None
  | x :: l' =>
      match callback x with
      | inl e => inl e
      | inr true => inr (Some x)
      | inr false => Array_find callback l'
      end
  end.

Inductive LogLevel := info | error.

(** One call of [req.log.<level>(fields, msg)]. *)
Record LogEntry := {
  level : LogLevel;
  fields : list (string * jsval);
  msg : string;
}.

(** ** Credentials *)

Record AwsBedrockKey := {
  key : string;
  hash : string;
  inferenceProfileIds : list string;
}.

Record Credential := {
  accessKeyId : string;
  secretAccessKey : string;
  region : string;
}.

(** A computation that writes to the request log and may throw. *)
Definition Logged (A : Type) : Type := list LogEntry * (exn + A).

(** [getCredentialParts(req)], reading [req.key]: the first three segments of
    [req.key.key.split(":")]; when one of them is undefined or empty, one
    error entry carrying [req.key.hash] is logged and an [Error] is thrown. *)
Definition getCredentialParts (k : AwsBedrockKey) : Logged Credential :=
  let parts := JsString.split ":" (key k) in
  let accessKeyId := parts !! 0%nat in
  let secretAccessKey := parts !! 1%nat in
  let region := parts !! 2%nat in
  if JsString.falsy accessKeyId || JsString.falsy secretAccessKey || JsString.falsy region then
    ([ {| level := error;
          fields := [("key", JStr (hash k))];
          msg := "AWS_CREDENTIALS isn't correctly formatted; refer to the docs" |} ],
     inl (Error "The key assigned to this request is invalid."))
  else
    ([], inr {| accessKeyId := default "" accessKeyId;
                secretAccessKey := default "" secretAccessKey;
                region := default "" region |}).

(** ** Object schemas (zod) *)

(** A field schema: given the property's value ([undefined] when absent) it
    returns the parsed value, which may differ from the input (defaults,
    coercions, transforms) or be [undefined] (optional fields), or the issues
    found. *)
Definition ZodType : Type := jsval → list ZodIssue + jsval.

Inductive UnknownKeysParam := uk_passthrough | uk_strict | uk_strip.

(** [z.object(shape)] with its policy for the keys outside [shape]. *)
Record ZodObject := {
  shape : gmap string ZodType;
  unknownKeys : UnknownKeysParam;
}.

(** [schema.pick(mask)]: the fields of [schema] named by [mask]; the policy
    is inherited. *)
Definition pick (mask : gset string) (schema : ZodObject) : ZodObject :=
  {| shape := filter (λ kt, kt.1 ∈ mask) (shape schema);
     unknownKeys := unknownKeys schema |}.

(** [schema.strip()] *)
Definition strip (schema : ZodObject) : ZodObject :=
  {| shape := shape schema; unknownKeys := uk_strip |}.

Definition is_undefined (v : jsval) : bool :=
  match v with JUndefined => true | _ => false end.

(** An issue found below property [k] is reported under [k]. *)
Definition at_key (k : string) (i : ZodIssue) : ZodIssue :=
  {| issue_code := issue_code i; issue_path := k :: issue_path i;
     issue_message := issue_message i |}.

(** The issues of the field [k] of the shape on [data]. *)
Definition field_issues (data : gmap string jsval) (k : string) (ty : ZodType)
  : list ZodIssue :=
  match ty (prop data k) with
  | inl issues => at_key k <$> issues
  | inr _ => []
  end.

(** The parsed value of the field [k]: set in the result when it is not
    undefined or when [k] is a property of [data]. *)
Definition field_value (data : gmap string jsval) (k : string) (ty : ZodType)
  : option jsval :=
  match ty (prop data k) with
  | inl _ => None
  | inr v => if is_undefined v && bool_decide (k ∉ dom data) then None else Some v
  end.

(** The properties of [data] outside the shape. *)
Definition extra_keys (schema : ZodObject) (data : gmap string jsval)
  : gmap string jsval :=
  filter (λ kv, kv.1 ∉ dom (shape schema)) data.

Definition unknown_issues (schema : ZodObject) (data : gmap string jsval)
  : list ZodIssue :=
  match unknownKeys schema with
  | uk_strict =>
      if decide (extra_keys schema data = ∅) then []
      else [ {| issue_code := unrecognized_keys (dom (extra_keys schema data));
                issue_path := [];
                issue_message := "Unrecognized key(s) in object" |} ]
  | uk_passthrough | uk_strip => []
  end.

Definition all_issues (schema : ZodObject) (data : gmap string jsval)
  : list ZodIssue :=
  mjoin ((λ kt, field_issues data kt.1 kt.2) <$> map_to_list (shape schema))
  ++ unknown_issues schema data.

Definition parsed_object (schema : ZodObject) (data : gmap string jsval)
  : gmap string jsval :=
  let known := map_imap (field_value data) (shape schema) in
  match unknownKeys schema with
  | uk_passthrough =>
      known ∪ filter (λ kv, is_undefined kv.2 = false) (extra_keys schema data)
  | uk_strict | uk_strip => known
  end.

(** The field [k] of the shape parses on [data]. *)
Definition field_valid (data : gmap string jsval) (k : string) (ty : ZodType)
  : bool :=
  match ty (prop data k) with
  | inl _ => false
  | inr _ => true
  end.

(** Every field parses, and a strict schema finds no unknown key. *)
Definition valid (schema : ZodObject) (data : gmap string jsval) : bool :=
  forallb (λ kt, field_valid data kt.1 kt.2) (map_to_list (shape schema))
  && match unknownKeys schema with
     | uk_strict => bool_decide (extra_keys schema data = ∅)
     | uk_passthrough | uk_strip => true
     end.

(** [schema.parse(data)] on an object: every field of the shape is parsed,
    the unknown keys are handled by the policy, and a [ZodError] with all the
    issues is thrown unless the object is valid. *)
Definition parse (schema : ZodObject) (data : gmap string jsval)
  : exn + gmap string jsval :=
  if valid schema data then inr (parsed_object schema data)
  else inl (ZodError (all_issues schema data)).

(** ** The outgoing request *)

Module HttpRequest.

(** [HttpRequest] of [@smithy/protocol-http], with the fields the mutator
    sets. *)
Record t := {
  method : string;
  protocol : string;
  hostname : string;
  path : string;
  headers : gmap string string;
  body : string;
}.

(** [a || b] on strings. *)
Definition or_else (a b : string) : string :=
  if String.eqb a "" then b else a.

(** [new HttpRequest(options)]: an empty hostname falls back to localhost,
    and a path that does not start with a slash is given one. *)
Definition new (method protocol hostname path : string)
    (headers : gmap string string) (body : string) : t :=
  {| method := or_else method "GET";
     protocol := protocol;
     hostname := or_else hostname "localhost";
     path := if String.eqb path "" then "/"
             else if JsString.startsWith "/" path then path
             else "/" +:+ path;
     headers := headers;
     body := body |}.

(** [request.headers[name] = value] *)
Definition set_header (name value : string) (r : t) : t :=
  {| method := method r; protocol := protocol r; hostname := hostname r;
     path := path r; headers := <[name := value]> (headers r);
     body := body r |}.

End HttpRequest.

(** ** The signer *)

(** Lower-case hexadecimal: two digits per byte. *)
Definition hex_digit (n : N) : ascii :=
  match n with
  | 0%N => "0" | 1%N => "1" | 2%N => "2" | 3%N => "3" | 4%N => "4"
  | 5%N => "5" | 6%N => "6" | 7%N => "7" | 8%N => "8" | 9%N => "9"
  | 10%N => "a" | 11%N => "b" | 12%N => "c" | 13%N => "d" | 14%N => "e"
  | _ => "f"
  end%char.

Fixpoint toHex (bytes : string) : string :=
  match bytes with
  | EmptyString => EmptyString
  | String c rest =>
      String (hex_digit (N.div (N_of_ascii c) 16))
        (String (hex_digit (N.modulo (N_of_ascii c) 16)) (toHex rest))
  end.

Definition newline : string := String (ascii_of_nat 10) EmptyString.

(** The primitives of the signing protocol: the digest and the keyed hash
    ([Sha256] of [@aws-crypto/sha256-js] and the HMAC built on it) on byte
    strings, the protocol's percent-encoding of the path, its canonical
    header block (lower-cased names, sorted, one line per header) and the
    list of the signed header names. *)
Class SignerPrimitives := {
  sha256 : string → string;
  hmac : string → string → string;
  escapeUri : string → string;
  canonicalHeaders : gmap string string → string;
  signedHeaders : gmap string string → string;
}.

Section Signer.

Context `{!SignerPrimitives}.

(** What [new SignatureV4({...})] is configured with. *)
Record SignerConfig := {
  credentials : Credential;
  signer_region : string;
  service : string;
}.

Definition ALGORITHM_IDENTIFIER : string := "AWS4-HMAC-SHA256".

(** Modelled from the spec: step 1 of the signing protocol ([SignatureV4] of
    [@smithy/signature-v4] is not under src/), the content hash over the
    exact body bytes, hex-encoded. *)
Definition payloadHash (request : HttpRequest.t) : string :=
  toHex (sha256 (HttpRequest.body request)).

(** Modelled from the spec: the headers that are signed, which are the
    request's own, the timestamp and the content hash. *)
Definition headersToSign (longDate : string) (request : HttpRequest.t)
  : gmap string string :=
  <["x-amz-content-sha256" := payloadHash request]>
    (<["x-amz-date" := longDate]> (HttpRequest.headers request)).

(** Modelled from the spec: step 2, the canonical request: method, canonical
    path, the (empty) canonical query string, the canonical headers
    terminated by the list of the signed header names, and the content
    hash. *)
Definition canonicalRequest (longDate : string) (request : HttpRequest.t)
  : string :=
  let hs := headersToSign longDate request in
  HttpRequest.method request +:+ newline +:+
  escapeUri (HttpRequest.path request) +:+ newline +:+
  "" +:+ newline +:+
  canonicalHeaders hs +:+ newline +:+
  signedHeaders hs +:+ newline +:+
  payloadHash request.

(** Modelled from the spec: the credential scope
    [date/region/service/terminator]. *)
Definition createScope (shortDate region service : string) : string :=
  shortDate +:+ "/" +:+ region +:+ "/" +:+ service +:+ "/aws4_request".

(** Modelled from the spec: step 3, the string to sign. *)
Definition stringToSign (longDate scope creq : string) : string :=
  ALGORITHM_IDENTIFIER +:+ newline +:+
  longDate +:+ newline +:+
  scope +:+ newline +:+
  toHex (sha256 creq).

(** Modelled from the spec: step 4, the key-derivation chain from the
    secret access key through date, region, service and the terminator. *)
Definition signingKey (secret shortDate region service : string) : string :=
  hmac (hmac (hmac (hmac ("AWS4" +:+ secret) shortDate) region) service)
       "aws4_request".

(** Modelled from the spec: step 5, the hex-encoded keyed hash of the string
    to sign under the derived key. [longDate] is the signing time in the
    protocol's format [YYYYMMDDTHHMMSSZ]; its first eight characters are the
    date. *)
Definition signature (cfg : SignerConfig) (longDate : string)
    (request : HttpRequest.t) : string :=
  let shortDate := String.substring 0 8 longDate in
  let scope := createScope shortDate (signer_region cfg) (service cfg) in
  toHex (hmac (signingKey (secretAccessKey (credentials cfg)) shortDate
                 (signer_region cfg) (service cfg))
              (stringToSign longDate scope (canonicalRequest longDate request))).

(** Modelled from the spec: step 6, the [Authorization] header. *)
Definition authorization (cfg : SignerConfig) (longDate : string)
    (request : HttpRequest.t) : string :=
  let shortDate := String.substring 0 8 longDate in
  let scope := createScope shortDate (signer_region cfg) (service cfg) in
  ALGORITHM_IDENTIFIER +:+ " Credential=" +:+
  accessKeyId (credentials cfg) +:+ "/" +:+ scope +:+
  ", SignedHeaders=" +:+ signedHeaders (headersToSign longDate request) +:+
  ", Signature=" +:+ signature cfg longDate request.

(** Modelled from the spec: [signer.sign(request)] at signing time
    [longDate]: the request with the timestamp, content-hash and
    authorization headers added. *)
Definition SignatureV4_sign (cfg : SignerConfig) (longDate : string)
    (request : HttpRequest.t) : HttpRequest.t :=
  HttpRequest.set_header "authorization" (authorization cfg longDate request)
    (HttpRequest.set_header "x-amz-content-sha256" (payloadHash request)
       (HttpRequest.set_header "x-amz-date" longDate request)).

(** [sign(request, credential)]: a signer for the service [bedrock] in the
    credential's region. *)
Definition sign (longDate : string) (request : HttpRequest.t)
    (credential : Credential) : HttpRequest.t :=
  let signer := {| credentials := credential;
                   signer_region := region credential;
                   service := "bedrock" |} in
  SignatureV4_sign signer longDate request.

End Signer.

(** ** The mutator *)

Record Request := {
  body : gmap string jsval;
  inboundApi : string;
  outboundApi : string;
}.

(** What the mutator leaves behind: the entries written to [req.log], and
    what it sets on the request manager (the key, the request headers, the
    signed request). *)
Record World := {
  log : list LogEntry;
  manager_key : option AwsBedrockKey;
  manager_headers : gmap string string;
  signedRequest : option HttpRequest.t;
}.

(** Computations that change the world and may throw. *)
Definition M (A : Type) : Type := World → World * (exn + A).

Definition ret {A} (a : A) : M A := λ w, (w, inr a).

Definition bind {A B} (m : M A) (f : A → M B) : M B :=
  λ w, match m w with
       | (w', inl e) => (w', inl e)
       | (w', inr a) => f a w'
       end.

#[global] Instance M_ret : MRet M := @ret.
#[global] Instance M_bind : MBind M := λ A B f m, bind m f.

(** A pure computation that may throw. *)
Definition lift_result {A} (r : exn + A) : M A := λ w, (w, r).

(** A logging computation: its entries are appended to the log. *)
Definition lift_logged {A} (c : Logged A) : M A :=
  λ w, ({| log := log w ++ c.1; manager_key := manager_key w;
           manager_headers := manager_headers w;
           signedRequest := signedRequest w |}, c.2).

(** [req.log.info(fields, msg)] *)
Definition log_info (fs : list (string * jsval)) (m : string) : M unit :=
  lift_logged ([ {| level := info; fields := fs; msg := m |} ], inr tt).

(** The setters of the request manager ([ProxyReqManager] of [../index],
    not under src/) record what the mutator sets: [manager.setKey(key)],
    which also makes the key the request's [req.key]. *)
Definition setKey (k : AwsBedrockKey) : M unit :=
  λ w, ({| log := log w; manager_key := Some k;
           manager_headers := manager_headers w;
           signedRequest := signedRequest w |}, inr tt).

(** [manager.setHeader(name, value)] *)
Definition setHeader (name value : string) : M unit :=
  λ w, ({| log := log w; manager_key := manager_key w;
           manager_headers := <[name := value]> (manager_headers w);
           signedRequest := signedRequest w |}, inr tt).

(** [manager.setSignedRequest(request)] *)
Definition setSignedRequest (r : HttpRequest.t) : M unit :=
  λ w, ({| log := log w; manager_key := manager_key w;
           manager_headers := manager_headers w;
           signedRequest := Some r |}, inr tt).

(** What the mutator imports and does not define: the vendor schemas of
    [shared/api-schemas] (object schemas) and the fields of the two schemas
    of [shared/api-schemas/mistral-ai], none of them under src/;
    [process.env.AMZ_HOST]; [keyPool.get(model, service)] of
    [shared/key-management], which returns the key the pool assigns or
    throws; Number::toString and [JSON.stringify]. *)
Class Imports := {
  AnthropicV1TextSchema : ZodObject;
  AnthropicV1MessagesSchema : ZodObject;
  AWSMistralV1ChatCompletionsShape : gmap string ZodType;
  AWSMistralV1TextCompletionsShape : gmap string ZodType;
  env_AMZ_HOST : option string;
  keyPool_get : jsval → string → exn + AwsBedrockKey;
  Number_toString : Q → string;
  JSON_stringify : gmap string jsval → string;
}.

Section Mutator.

Context `{!Imports, !SignerPrimitives}.

(** Modelled from the spec: the chat schema of the second model family
    (shared/api-schemas/mistral-ai is not under src/) is that family's full
    schema and is strict: extraneous fields are rejected, not dropped. *)
Definition AWSMistralV1ChatCompletionsSchema : ZodObject :=
  {| shape := AWSMistralV1ChatCompletionsShape; unknownKeys := uk_strict |}.

(** Modelled from the spec: the text schema of the second model family
    (shared/api-schemas/mistral-ai is not under src/), strict as well. *)
Definition AWSMistralV1TextCompletionsSchema : ZodObject :=
  {| shape := AWSMistralV1TextCompletionsShape; unknownKeys := uk_strict |}.

(** The fields picked for [anthropic-text]. *)
Definition text_mask : gset string :=
  {[ "prompt"; "max_tokens_to_sample"; "stop_sequences"; "temperature";
     "top_k"; "top_p" ]}.

(** The fields picked for [anthropic-chat]. *)
Definition chat_mask : gset string :=
  {[ "messages"; "system"; "max_tokens"; "stop_sequences"; "temperature";
     "top_k"; "top_p" ]}.

(** [getStrictlyValidatedBodyForAws(req)] *)
Definition getStrictlyValidatedBodyForAws (req : Request)
  : exn + gmap string jsval :=
  if String.eqb (outboundApi req) "anthropic-text" then
    parse (strip (pick text_mask AnthropicV1TextSchema)) (body req)
  else if String.eqb (outboundApi req) "anthropic-chat" then
    match parse (strip (pick chat_mask AnthropicV1MessagesSchema)) (body req) with
    | inr strippedParams =>
        inr (<["anthropic_version" := JStr "bedrock-2023-05-31"]> strippedParams)
    | inl e => inl e
    end
  else if String.eqb (outboundApi req) "mistral-ai" then
    parse AWSMistralV1ChatCompletionsSchema (body req)
  else if String.eqb (outboundApi req) "mistral-text" then
    parse AWSMistralV1TextCompletionsSchema (body req)
  else inl (Error "Unexpected outbound API for AWS.").

(** [process.env.AMZ_HOST || "bedrock-runtime.%REGION%.amazonaws.com"] *)
Definition AMZ_HOST : string :=
  HttpRequest.or_else (default "" env_AMZ_HOST)
    "bedrock-runtime.%REGION%.amazonaws.com".

(** ToString: what [includes] and a template literal apply to a value.
    An array is joined ([Array.prototype.toString]), its undefined and null
    items giving the empty text. An object of a JSON body has the text of
    [Object.prototype.toString], unless a property of its own named
    [toString] hides that method: such a property holds a JSON value, which
    cannot be called, and [valueOf] gives no primitive either, so that the
    conversion throws. *)
Fixpoint ToString (v : jsval) : exn + string :=
  match v with
  | JUndefined => inr "undefined"
  | JNull => inr "null"
  | JBool true => inr "true"
  | JBool false => inr "false"
  | JNum q => inr (Number_toString q)
  | JStr s => inr s
  | JArr items =>
      match item_texts (λ x, match x with
                             | JUndefined | JNull => inr ""
                             | _ => ToString x
                             end) items with
      | inl e => inl e
      | inr ss => inr (String.concat "," ss)
      end
  | JObj props =>
      if has_own props "toString"
      then inl (TypeError "Cannot convert object to primitive value")
      else inr "[object Object]"
  end.

(** [p.includes(model)]: the argument is converted at every call. *)
Definition includes_value (model : jsval) (p : string) : exn + bool :=
  match ToString model with
  | inl e => inl e
  | inr text => inr (JsString.includes p text)
  end.

(** [key.inferenceProfileIds.find((p) => p.includes(model)) || model] *)
Definition selectProfile (k : AwsBedrockKey) (model : jsval) : exn + jsval :=
  match Array_find (includes_value model) (inferenceProfileIds k) with
  | inl e => inl e
  | inr (Some p) => inr (if truthy (JStr p) then JStr p else model)
  | inr None => inr model
  end.

(** The request built for the signer: [new HttpRequest({...})] followed by
    the accept header for the streaming or the plain call. [id] is the text
    of [${profile}] in the path, which the object literal computes before
    it computes the body. *)
Definition newRequest (host : string) (id : string) (stream : jsval)
    (strippedParams : gmap string jsval) : HttpRequest.t :=
  let r :=
    HttpRequest.new "POST" "https:" host
      ("/model/" +:+ id +:+ "/invoke" +:+
       (if truthy stream then "-with-response-stream" else ""))
      (<["Host" := host]> (<["content-type" := "application/json"]> ∅))
      (JSON_stringify strippedParams) in
  if truthy stream
  then HttpRequest.set_header "x-amzn-bedrock-accept" "application/json" r
  else HttpRequest.set_header "accept" "*/*" r.

(** [signAwsRequest(manager)] on the request [req], signing at the time
    [longDate]. *)
Definition signAwsRequest (longDate : string) (req : Request) : M unit :=
  let model := prop (body req) "model" in
  let stream := prop (body req) "stream" in
  k ← lift_result (keyPool_get model "aws");
  setKey k ;;
  credential ← lift_logged (getCredentialParts k);
  let host := JsString.replace AMZ_HOST "%REGION%" (region credential) in
  setHeader "anthropic-version" "2023-06-01" ;;
  profile ← lift_result (selectProfile k model);
  id ← lift_result (ToString profile);
  strippedParams ← lift_result (getStrictlyValidatedBodyForAws req);
  let request := newRequest host id stream strippedParams in
  log_info [ ("key", JStr (hash k)); ("model", prop (body req) "model");
             ("profile", profile); ("inboundApi", JStr (inboundApi req));
             ("outboundApi", JStr (outboundApi req)) ]
           "Assigned AWS credentials to request" ;;
  credential' ← lift_logged (getCredentialParts k);
  setSignedRequest (sign longDate request credential').

End Mutator.

(** ** Vocabulary of the statements *)

(** The error thrown for a malformed key, and the report logged with it. *)
Definition invalid_key_error : exn :=
  Error "The key assigned to this request is invalid.".

Definition invalid_key_report (h : string) : LogEntry :=
  {| level := error;
     fields := [("key", JStr h)];
     msg := "AWS_CREDENTIALS isn't correctly formatted; refer to the docs" |}.

(** The number of non-empty segments of a composite secret. *)
Definition nonempty_segments (s : string) : nat :=
  length (filter (λ seg, seg ≠ "") (JsString.split ":" s)).

(** The error thrown for an outbound API the gateway does not serve. *)
Definition unsupported_api_error : exn :=
  Error "Unexpected outbound API for AWS.".

(** [haystack] textually contains [needle]. *)
Definition contains (haystack needle : string) : Prop :=
  ∃ before after, haystack = before +:+ needle +:+ after.

(** The end of the path: the streaming call or the plain one. *)
Definition invoke_suffix (stream : jsval) : string :=
  if truthy stream then "-with-response-stream" else "".

(** A field schema that returns its own results unchanged: validators,
    defaults, clamps and coercions are of this kind. *)
Definition idempotent (ty : ZodType) : Prop :=
  ∀ v v', ty v = inr v' → ty v' = inr v'.

Definition idempotent_shape (sh : gmap string ZodType) : Prop :=
  ∀ k ty, sh !! k = Some ty → idempotent ty.





Section Vocabulary.

Context `{!Imports, !SignerPrimitives}.



(** The three ways a body violates a strict schema with the fields [sh]: an
    extraneous field, a field with an invalid value, a required field that
    is missing. *)
Definition extraneous_field (sh : gmap string ZodType)
    (data : gmap string jsval) (k : string) : Prop :=
  k ∈ dom data ∧ k ∉ dom sh.

Definition invalid_field (sh : gmap string ZodType)
    (data : gmap string jsval) (k : string) (issues : list ZodIssue) : Prop :=
  ∃ ty, sh !! k = Some ty ∧ ty (prop data k) = inl issues.

Definition missing_field (sh : gmap string ZodType)
    (data : gmap string jsval) (k : string) (issues : list ZodIssue) : Prop :=
  ∃ ty, sh !! k = Some ty ∧ data !! k = None ∧ ty JUndefined = inl issues.

(** The request with its body replaced. *)
Definition with_body (req : Request) (b : gmap string jsval) : Request :=
  {| body := b; inboundApi := inboundApi req; outboundApi := outboundApi req |}.

(** The identifier chosen for the key [k] and the model [model], with its
    text in the path of the request; or what the choice or the conversion
    to text throws. *)
Definition resource_identifier (k : AwsBedrockKey) (model : jsval)
  : exn + jsval * string :=
  match selectProfile k model with
  | inl e => inl e
  | inr profile =>
      match ToString profile with
      | inl e => inl e
      | inr id => inr (profile, id)
      end
  end.

(** The entry logged once the credentials are assigned and the identifier
    [profile] is chosen. *)
Definition assigned_report (req : Request) (k : AwsBedrockKey)
    (profile : jsval) : LogEntry :=
  {| level := info;
     fields := [ ("key", JStr (hash k)); ("model", prop (body req) "model");
                 ("profile", profile);
                 ("inboundApi", JStr (inboundApi req));
                 ("outboundApi", JStr (outboundApi req)) ];
     msg := "Assigned AWS credentials to request" |}.

(** The request handed to the signer when the assigned key has the
    credential [c], the chosen identifier has the text [id] and the body
    projects to [params]. *)
Definition built_request (req : Request) (c : Credential) (id : string)
    (params : gmap string jsval) : HttpRequest.t :=
  newRequest (JsString.replace AMZ_HOST "%REGION%" (region c))
    id (prop (body req) "stream") params.

End Vocabulary.

(** ** Field schemas and a test fixture *)

Definition issue (m : string) : ZodIssue :=
  {| issue_code := invalid_type; issue_path := []; issue_message := m |}.

(** [z.string()] *)
Definition z_string : ZodType := λ v,
  match v with
  | JStr _ => inr v
  | JUndefined => inl [issue "Required"]
  | _ => inl [issue "Expected string"]
  end.

(** [z.number()] *)
Definition z_number : ZodType := λ v,
  match v with
  | JNum _ => inr v
  | JUndefined => inl [issue "Required"]
  | _ => inl [issue "Expected number"]
  end.

(** [z.boolean()] *)
Definition z_boolean : ZodType := λ v,
  match v with
  | JBool _ => inr v
  | JUndefined => inl [issue "Required"]
  | _ => inl [issue "Expected boolean"]
  end.

(** [z.array(z.any())] *)
Definition z_array : ZodType := λ v,
  match v with
  | JArr _ => inr v
  | JUndefined => inl [issue "Required"]
  | _ => inl [issue "Expected array"]
  end.

(** [ty.optional()] *)
Definition z_optional (ty : ZodType) : ZodType := λ v,
  match v with
  | JUndefined => inr JUndefined
  | _ => ty v
  end.

(** [ty.default(d)] *)
Definition z_default (d : jsval) (ty : ZodType) : ZodType := λ v,
  match v with
  | JUndefined => inr d
  | _ => ty v
  end.

Module Fixture.

Definition base_shape : gmap string ZodType :=
  <["model" := z_string]>
  (<["stop_sequences" := z_optional z_array]>
  (<["stream" := z_default (JBool false) z_boolean]>
  (<["temperature" := z_optional z_number]>
  (<["top_k" := z_optional z_number]>
  (<["top_p" := z_optional z_number]> ∅))))).

Definition text_schema : ZodObject :=
  {| shape := <["prompt" := z_string]>
              (<["max_tokens_to_sample" := z_number]> base_shape);
     unknownKeys := uk_strip |}.

Definition messages_schema : ZodObject :=
  {| shape := <["messages" := z_array]>
              (<["max_tokens" := z_optional z_number]>
              (<["system" := z_optional z_string]> base_shape));
     unknownKeys := uk_strip |}.

Definition mistral_base_shape : gmap string ZodType :=
  <["temperature" := z_optional z_number]>
  (<["top_p" := z_optional z_number]>
  (<["max_tokens" := z_optional z_number]> ∅)).

Definition the_key : AwsBedrockKey :=
  {| key := "AKIAEXAMPLE:wJalrXUtnFEMI:us-east-1";
     hash := "aws-3f9a1c";
     inferenceProfileIds := ["foo-v2"; "bar-v2"] |}.

Definition bad_key : AwsBedrockKey :=
  {| key := "AKIAEXAMPLE:wJalrXUtnFEMI";
     hash := "aws-77b0de";
     inferenceProfileIds := [] |}.

Definition imports : Imports :=
  {| AnthropicV1TextSchema := text_schema;
     AnthropicV1MessagesSchema := messages_schema;
     AWSMistralV1ChatCompletionsShape := <["messages" := z_array]> mistral_base_shape;
     AWSMistralV1TextCompletionsShape := <["prompt" := z_string]> mistral_base_shape;
     env_AMZ_HOST := None;
     keyPool_get := λ _ _, inr the_key;
     Number_toString := λ _, "0";
     JSON_stringify := λ m, String.concat "," (elements (dom m)) |}.

(** The same imports with a pool that assigns the malformed key. *)
Definition imports_bad_key : Imports :=
  {| AnthropicV1TextSchema := text_schema;
     AnthropicV1MessagesSchema := messages_schema;
     AWSMistralV1ChatCompletionsShape := <["messages" := z_array]> mistral_base_shape;
     AWSMistralV1TextCompletionsShape := <["prompt" := z_string]> mistral_base_shape;
     env_AMZ_HOST := None;
     keyPool_get := λ _ _, inr bad_key;
     Number_toString := λ _, "0";
     JSON_stringify := λ m, String.concat "," (elements (dom m)) |}.

(** Stand-ins for the digest and the keyed hash. *)
Definition primitives : SignerPrimitives :=
  {| sha256 := λ m, String.substring 0 4 (m +:+ "0000");
     hmac := λ k m, String.substring 0 4 (k +:+ m +:+ "0000");
     escapeUri := λ p, p;
     canonicalHeaders := λ hs, String.concat newline
        ((λ kv, kv.1 +:+ ":" +:+ kv.2) <$> map_to_list hs);
     signedHeaders := λ hs, String.concat ";" (elements (dom hs)) |}.

Definition messages : jsval :=
  JArr [JObj [("role", JStr "user"); ("content", JStr "Hello")]].

(** The chat body of the end-to-end scenario. *)
Definition chat_body : gmap string jsval :=
  <["messages" := messages]>
  (<["temperature" := JNum (1 # 2)]>
  (<["foo" := JStr "bar"]> ∅)).

Definition chat_request : Request :=
  {| body := chat_body; inboundApi := "openai"; outboundApi := "anthropic-chat" |}.

(** A streaming chat request for the model [foo]. *)
Definition stream_request : Request :=
  {| body := <["model" := JStr "foo"]> (<["stream" := JBool true]> chat_body);
     inboundApi := "openai"; outboundApi := "anthropic-chat" |}.

(** A text request whose client sent an [anthropic_version] of its own. *)
Definition text_request : Request :=
  {| body := <["prompt" := JStr "Human: Hi Assistant:"]>
             (<["max_tokens_to_sample" := JNum 100]>
             (<["anthropic_version" := JStr "2023-01-01"]>
             (<["model" := JStr "m1"]> ∅)));
     inboundApi := "anthropic-text"; outboundApi := "anthropic-text" |}.

(** A mistral chat request with a field the schema does not know and a
    temperature that is not a number. *)
Definition mistral_request : Request :=
  {| body := <["messages" := messages]>
             (<["temperature" := JStr "hot"]>
             (<["foo" := JStr "bar"]> ∅));
     inboundApi := "mistral-ai"; outboundApi := "mistral-ai" |}.

(** A valid mistral text request. *)
Definition mistral_text_request : Request :=
  {| body := <["prompt" := JStr "Hi"]> (<["top_p" := JNum 1]> ∅);
     inboundApi := "mistral-text"; outboundApi := "mistral-text" |}.

Definition openai_request : Request :=
  {| body := chat_body; inboundApi := "openai"; outboundApi := "openai" |}.

Definition empty_world : World :=
  {| log := []; manager_key := None; manager_headers := ∅; signedRequest := None |}.

Definition now : string := "20240812T102030Z".

End Fixture.

(** ** Vocabulary of the further statements *)

(** The number of occurrences of [c] in [s]. *)
Fixpoint count_char (c : ascii) (s : string) : nat :=
  match s with
  | EmptyString => O
  | String a s' => (if Ascii.eqb a c then 1 else 0) + count_char c s'
  end.

(** The imports with another key pool. *)
Definition with_pool (I : Imports)
    (pool : jsval → string → exn + AwsBedrockKey) : Imports :=
  {| AnthropicV1TextSchema := @AnthropicV1TextSchema I;
     AnthropicV1MessagesSchema := @AnthropicV1MessagesSchema I;
     AWSMistralV1ChatCompletionsShape := @AWSMistralV1ChatCompletionsShape I;
     AWSMistralV1TextCompletionsShape := @AWSMistralV1TextCompletionsShape I;
     env_AMZ_HOST := @env_AMZ_HOST I;
     keyPool_get := pool;
     Number_toString := @Number_toString I;
     JSON_stringify := @JSON_stringify I |}.

(** The mask and the vendor schema the sanitizer picks from, for the two
    anthropic APIs. *)
Definition anthropic_pick `{!Imports} (api : string)
  : option (gset string * ZodObject) :=
  if String.eqb api "anthropic-text" then Some (text_mask, AnthropicV1TextSchema)
  else if String.eqb api "anthropic-chat" then Some (chat_mask, AnthropicV1MessagesSchema)
  else None.

(** The computation threw. *)
Definition threw {A} (r : exn + A) : Prop := ∃ e, r = inl e.

Module Cases.

(** A key whose secret has a fourth part. *)
Definition long_key : AwsBedrockKey :=
  {| key := "AKIAEXAMPLE:wJalrXUtnFEMI:eu-west-1:extra:parts";
     hash := "aws-51c2aa";
     inferenceProfileIds := ["eu.foo-v2"; "foo-v2"; "bar"] |}.

(** The fixture's key with another secret: same hash, same profiles. *)
Definition rotated_key : AwsBedrockKey :=
  {| key := "AKIAOTHER:9dK2lQpLmN:eu-west-1";
     hash := "aws-3f9a1c";
     inferenceProfileIds := ["foo-v2"; "bar-v2"] |}.

(** The fixture's imports with a host template set in the environment. *)
Definition imports_with_host (template : string) : Imports :=
  {| AnthropicV1TextSchema := Fixture.text_schema;
     AnthropicV1MessagesSchema := Fixture.messages_schema;
     AWSMistralV1ChatCompletionsShape := <["messages" := z_array]> Fixture.mistral_base_shape;
     AWSMistralV1TextCompletionsShape := <["prompt" := z_string]> Fixture.mistral_base_shape;
     env_AMZ_HOST := Some template;
     keyPool_get := λ _ _, inr Fixture.the_key;
     Number_toString := λ _, "0";
     JSON_stringify := λ m, String.concat "," (elements (dom m)) |}.

(** A pool that has no key. *)
Definition imports_no_key : Imports :=
  with_pool Fixture.imports (λ _ _, inl (KeyPoolError "No keys available"%string)).

(** A chat request whose temperature is not a number. *)
Definition hot_request : Request :=
  {| body := <["model" := JStr "foo"]>
             (<["messages" := Fixture.messages]>
             (<["temperature" := JStr "hot"]> ∅));
     inboundApi := "openai"; outboundApi := "anthropic-chat" |}.




(** A chat request whose model is an object with a property named
    [toString]. *)
Definition object_model_request : Request :=
  {| body := <["model" := JObj [("toString", JStr "x")]]>
             (<["messages" := Fixture.messages]>
             (<["max_tokens" := JNum 1]> ∅));
     inboundApi := "openai"; outboundApi := "anthropic-chat" |}.

End Cases.

(** * Properties *)

(** ** Strings *)

Lemma append_nil_l s : "" +:+ s = s.
Proof. reflexivity. Qed.

Lemma append_cons c s t : String c s +:+ t = String c (s +:+ t).
Proof. reflexivity. Qed.

Ltac str_norm := rewrite ?append_cons, ?append_nil_l in *.

Lemma startsWith_spec pre s :
  JsString.startsWith pre s = true ↔ ∃ rest, s = pre +:+ rest.
Proof.
  revert s. induction pre as [|a pre IH]; intros s; simpl.
  - split; [intros _; by exists s | done].
  - destruct s as [|b s].
    + split; [done | intros [rest Hrest]; discriminate].
    + destruct (Ascii.eqb_spec a b) as [->|Hne].
      * rewrite IH. split; intros [rest Hrest]; exists rest; str_norm; congruence.
      * split; [done | intros [rest Hrest]; str_norm; congruence].
Qed.

(** [includes] is the substring relation. *)
Lemma includes_spec s sub :
  JsString.includes s sub = true ↔ ∃ before after, s = before +:+ sub +:+ after.
Proof.
  induction s as [|c s IH]; simpl.
  - rewrite orb_false_r, startsWith_spec. split.
    + intros [rest Hrest]. by exists "", rest.
    + intros (before & after & Heq). destruct before; [by exists after | str_norm; discriminate].
  - rewrite orb_true_iff, startsWith_spec, IH. split.
    + intros [[rest Hrest] | (before & after & Heq)].
      * by exists "", rest.
      * exists (String c before), after. str_norm. by rewrite Heq.
    + intros (before & after & Heq). destruct before as [|b before].
      * left. by exists after.
      * right. exists before, after. str_norm. congruence.
Qed.

(** A string without the separator is a single segment. *)
Lemma split_no_sep sep s :
  JsString.has_char sep s = false → JsString.split sep s = [s].
Proof.
  induction s as [|c s IH]; simpl; [done|].
  intros [Hc Hs]%orb_false_iff. rewrite Hc, (IH Hs). done.
Qed.

(** Splitting at the first separator. *)
Lemma split_app sep a b :
  JsString.has_char sep a = false →
  JsString.split sep (a +:+ String sep b) = a :: JsString.split sep b.
Proof.
  induction a as [|c a IH]; str_norm; simpl.
  - intros _. by rewrite Ascii.eqb_refl.
  - intros [Hc Ha]%orb_false_iff. rewrite Hc, (IH Ha). done.
Qed.

(** ** Credential extraction *)

(** The extraction succeeds exactly when the first three segments exist and
    are not empty, and then returns them. *)
Lemma getCredentialParts_ok k c :
  (getCredentialParts k).2 = inr c ↔
  ∃ rest, JsString.split ":" (key k)
          = accessKeyId c :: secretAccessKey c :: region c :: rest
          ∧ accessKeyId c ≠ "" ∧ secretAccessKey c ≠ "" ∧ region c ≠ "".
Proof.
  unfold getCredentialParts. destruct c as [ca cs cr]; simpl.
  destruct (JsString.split ":" (key k)) as [|a [|b [|r rest]]] eqn:Hs; simpl.
  - split; [done | intros (? & [=] & _)].
  - destruct a; simpl; (split; [done | intros (? & [=] & _)]).
  - destruct a, b; simpl; (split; [done | intros (? & [=] & _)]).
  - destruct a as [|a0 a], b as [|b0 b], r as [|r0 r]; simpl;
      try (split; [done | intros (? & [=] & ? & ? & ?); by simplify_eq]).
    split.
    + intros [=]. simplify_eq. eauto.
    + intros (? & [=] & _). by simplify_eq.
Qed.

(** Otherwise one report with the key's hash is logged and the error is
    thrown. *)
Lemma getCredentialParts_cases k :
  (∃ c, getCredentialParts k = ([], inr c)) ∨
  getCredentialParts k = ([invalid_key_report (hash k)], inl invalid_key_error).
Proof.
  unfold getCredentialParts.
  destruct (_ || _); [right | left]; eauto.
Qed.

Lemma getCredentialParts_ok_log k c :
  (getCredentialParts k).2 = inr c → getCredentialParts k = ([], inr c).
Proof.
  destruct (getCredentialParts_cases k) as [[c' Hc] | He]; rewrite ?Hc, ?He; simpl.
  - by intros [= ->].
  - done.
Qed.

Lemma getCredentialParts_prefix k a b r rest :
  JsString.split ":" (key k) = a :: b :: r :: rest →
  a ≠ "" → b ≠ "" → r ≠ "" →
  getCredentialParts k
  = ([], inr {| accessKeyId := a; secretAccessKey := b; region := r |}).
Proof.
  intros Hs Ha Hb Hr. apply getCredentialParts_ok_log.
  apply getCredentialParts_ok. simpl. eauto.
Qed.


Lemma nonempty_segments_prefix s a b r rest :
  JsString.split ":" s = a :: b :: r :: rest →
  a ≠ "" → b ≠ "" → r ≠ "" → (3 ≤ nonempty_segments s)%nat.
Proof.
  intros Hs Ha Hb Hr. unfold nonempty_segments. rewrite Hs.
  rewrite !filter_cons_True by done. simpl. lia.
Qed.

(** A well-formed triple splits into its three parts, whatever follows a
    further colon. *)
Lemma split_triple AK SK R :
  JsString.has_char ":" AK = false →
  JsString.has_char ":" SK = false →
  JsString.has_char ":" R = false →
  JsString.split ":" (AK +:+ ":" +:+ SK +:+ ":" +:+ R) = [AK; SK; R].
Proof.
  intros HA HS HR.
  rewrite !append_cons, !append_nil_l.
  rewrite !split_app by done. by rewrite split_no_sep.
Qed.

Lemma split_triple_extra AK SK R extra :
  JsString.has_char ":" AK = false →
  JsString.has_char ":" SK = false →
  JsString.has_char ":" R = false →
  JsString.split ":" (AK +:+ ":" +:+ SK +:+ ":" +:+ R +:+ ":" +:+ extra)
  = AK :: SK :: R :: JsString.split ":" extra.
Proof.
  intros HA HS HR.
  rewrite !append_cons, !append_nil_l.
  by rewrite !split_app.
Qed.

(** C2. A composite secret that splits on the colon into three non-empty
    segments AK, SK, region (in particular a well-formed triple
    [AK:SK:region]) yields exactly that credential; a secret with fewer than
    three non-empty segments fails with the invalid-key error and yields no
    credential; a returned credential has no empty field. *)
Theorem getCredentialParts_spec :
  (∀ k AK SK R,
     JsString.split ":" (key k) = [AK; SK; R] →
     AK ≠ "" → SK ≠ "" → R ≠ "" →
     getCredentialParts k
     = ([], inr {| accessKeyId := AK; secretAccessKey := SK; region := R |}))
  ∧ (∀ k AK SK R,
       key k = AK +:+ ":" +:+ SK +:+ ":" +:+ R →
       JsString.has_char ":" AK = false →
       JsString.has_char ":" SK = false →
       JsString.has_char ":" R = false →
       AK ≠ "" → SK ≠ "" → R ≠ "" →
       getCredentialParts k
       = ([], inr {| accessKeyId := AK; secretAccessKey := SK; region := R |}))
  ∧ (∀ k, (nonempty_segments (key k) < 3)%nat →
          (getCredentialParts k).2 = inl invalid_key_error)
  ∧ (∀ k c, (getCredentialParts k).2 = inr c →
            accessKeyId c ≠ "" ∧ secretAccessKey c ≠ "" ∧ region c ≠ "").
Proof.
  split; [|split; [|split]].
  - intros k AK SK R Hs. by apply getCredentialParts_prefix with (rest := []).
  - intros k AK SK R Hk HA HS HR. apply getCredentialParts_prefix with (rest := []).
    rewrite Hk. by apply split_triple.
  - intros k Hlt.
    destruct (getCredentialParts_cases k) as [[c Hc] | He]; [|by rewrite He].
    assert ((getCredentialParts k).2 = inr c) as Hok by by rewrite Hc.
    apply getCredentialParts_ok in Hok as (rest & Hs & Ha & Hb & Hr).
    pose proof (nonempty_segments_prefix _ _ _ _ _ Hs Ha Hb Hr). lia.
  - intros k c Hok. apply getCredentialParts_ok in Hok as (rest & _ & H). exact H.
Qed.

Lemma getCredentialParts_spec_witness :
  getCredentialParts Fixture.the_key
  = ([], inr {| accessKeyId := "AKIAEXAMPLE"; secretAccessKey := "wJalrXUtnFEMI";
                region := "us-east-1" |})
  ∧ (getCredentialParts Fixture.bad_key).2 = inl invalid_key_error
  ∧ (∀ c, (getCredentialParts Fixture.the_key).2 = inr c → region c ≠ "").
Proof.
  destruct getCredentialParts_spec as (H1 & H2 & H3 & H4).
  split; [|split].
  - apply (H2 Fixture.the_key "AKIAEXAMPLE" "wJalrXUtnFEMI" "us-east-1");
      first [reflexivity | discriminate].
  - apply (H3 Fixture.bad_key). vm_compute. lia.
  - intros c Hc. apply (H4 Fixture.the_key c Hc).
Defined.

(** C10. When the first three colon-delimited segments are non-empty the
    extraction succeeds with them, whatever follows: further segments are
    ignored, so a secret with a fourth part [AK:SK:region:extra] yields the
    credential of [AK:SK:region]. *)
Theorem getCredentialParts_ignores_extra_segments :
  (∀ k a b r rest,
     JsString.split ":" (key k) = a :: b :: r :: rest →
     a ≠ "" → b ≠ "" → r ≠ "" →
     getCredentialParts k
     = ([], inr {| accessKeyId := a; secretAccessKey := b; region := r |}))
  ∧ (∀ k AK SK R extra,
       key k = AK +:+ ":" +:+ SK +:+ ":" +:+ R +:+ ":" +:+ extra →
       JsString.has_char ":" AK = false →
       JsString.has_char ":" SK = false →
       JsString.has_char ":" R = false →
       AK ≠ "" → SK ≠ "" → R ≠ "" →
       getCredentialParts k
       = ([], inr {| accessKeyId := AK; secretAccessKey := SK; region := R |})).
Proof.
  split.
  - intros k a b r rest. apply getCredentialParts_prefix.
  - intros k AK SK R extra Hk HA HS HR.
    apply getCredentialParts_prefix with (rest := JsString.split ":" extra).
    rewrite Hk. by apply split_triple_extra.
Qed.

Lemma getCredentialParts_ignores_extra_segments_witness :
  getCredentialParts {| key := "a:b:c:d"; hash := "h"; inferenceProfileIds := [] |}
  = ([], inr {| accessKeyId := "a"; secretAccessKey := "b"; region := "c" |})
  ∧ getCredentialParts
      {| key := "AKIAEXAMPLE:wJal:rXUt:us-east-1"; hash := "h";
         inferenceProfileIds := [] |}
    = ([], inr {| accessKeyId := "AKIAEXAMPLE"; secretAccessKey := "wJal";
                  region := "rXUt" |}).
Proof.
  destruct getCredentialParts_ignores_extra_segments as (H1 & H2).
  split.
  - apply (H1 _ "a" "b" "c" ["d"]); first [reflexivity | discriminate].
  - apply (H2 _ "AKIAEXAMPLE" "wJal" "rXUt" "us-east-1");
      first [reflexivity | discriminate].
Defined.

(** ** The orchestration *)

Section Orchestration.

Context `{!Imports, !SignerPrimitives}.

Ltac run_M :=
  unfold signAwsRequest, mbind, M_bind, bind, lift_result, lift_logged,
    setKey, setHeader, setSignedRequest, log_info; simpl.

(** The pool throws: nothing is done. *)
Lemma signAwsRequest_no_key longDate req w e :
  keyPool_get (prop (body req) "model") "aws" = inl e →
  signAwsRequest longDate req w = (w, inl e).
Proof. intros Hk. run_M. by rewrite Hk. Qed.

(** The assigned key is malformed: the report is logged, the error thrown. *)
Lemma signAwsRequest_bad_key longDate req w k :
  keyPool_get (prop (body req) "model") "aws" = inr k →
  getCredentialParts k = ([invalid_key_report (hash k)], inl invalid_key_error) →
  signAwsRequest longDate req w
  = ({| log := log w ++ [invalid_key_report (hash k)];
        manager_key := Some k;
        manager_headers := manager_headers w;
        signedRequest := signedRequest w |}, inl invalid_key_error).
Proof. intros Hk Hc. run_M. by rewrite Hk, Hc. Qed.

(** The model or the chosen identifier has no text: the TypeError is thrown
    once the key and the header are set; nothing is logged or signed. *)
Lemma signAwsRequest_bad_model longDate req w k c e :
  keyPool_get (prop (body req) "model") "aws" = inr k →
  getCredentialParts k = ([], inr c) →
  resource_identifier k (prop (body req) "model") = inl e →
  signAwsRequest longDate req w
  = ({| log := log w;
        manager_key := Some k;
        manager_headers := <["anthropic-version" := "2023-06-01"]> (manager_headers w);
        signedRequest := signedRequest w |}, inl e).
Proof.
  intros Hk Hc Hid. unfold resource_identifier in Hid. run_M. rewrite Hk, Hc.
  destruct (selectProfile k (prop (body req) "model")) as [e'|profile].
  { injection Hid as ->. simpl. by rewrite app_nil_r. }
  destruct (ToString profile) as [e'|id]; [|done].
  injection Hid as ->. simpl. by rewrite app_nil_r.
Qed.

(** The body is rejected: the error of the sanitizer is thrown, no request
    is signed. *)
Lemma signAwsRequest_bad_body longDate req w k c profile id e :
  keyPool_get (prop (body req) "model") "aws" = inr k →
  getCredentialParts k = ([], inr c) →
  resource_identifier k (prop (body req) "model") = inr (profile, id) →
  getStrictlyValidatedBodyForAws req = inl e →
  signAwsRequest longDate req w
  = ({| log := log w;
        manager_key := Some k;
        manager_headers := <["anthropic-version" := "2023-06-01"]> (manager_headers w);
        signedRequest := signedRequest w |}, inl e).
Proof.
  intros Hk Hc Hid Hb. unfold resource_identifier in Hid. run_M. rewrite Hk, Hc.
  destruct (selectProfile k (prop (body req) "model")) as [e'|profile']; [done|].
  destruct (ToString profile') as [e'|id']; [done|].
  rewrite Hb. simpl. by rewrite app_nil_r.
Qed.

(** Everything succeeds: the built request is signed and handed over. *)
Lemma signAwsRequest_signed longDate req w k c profile id params :
  keyPool_get (prop (body req) "model") "aws" = inr k →
  getCredentialParts k = ([], inr c) →
  resource_identifier k (prop (body req) "model") = inr (profile, id) →
  getStrictlyValidatedBodyForAws req = inr params →
  signAwsRequest longDate req w
  = ({| log := log w ++ [assigned_report req k profile];
        manager_key := Some k;
        manager_headers := <["anthropic-version" := "2023-06-01"]> (manager_headers w);
        signedRequest := Some (sign longDate (built_request req c id params) c) |},
     inr tt).
Proof.
  intros Hk Hc Hid Hb. unfold resource_identifier in Hid. run_M. rewrite Hk, Hc.
  destruct (selectProfile k (prop (body req) "model")) as [e'|profile']; [done|].
  destruct (ToString profile') as [e'|id']; [done|].
  injection Hid as -> ->. rewrite Hb. simpl.
  by rewrite !app_nil_r.
Qed.

(** A run that returns went through the successful path. *)
Lemma signAwsRequest_inv longDate req w w' :
  signAwsRequest longDate req w = (w', inr tt) →
  ∃ k c profile id params,
    keyPool_get (prop (body req) "model") "aws" = inr k ∧
    getCredentialParts k = ([], inr c) ∧
    resource_identifier k (prop (body req) "model") = inr (profile, id) ∧
    getStrictlyValidatedBodyForAws req = inr params ∧
    signedRequest w' = Some (sign longDate (built_request req c id params) c).
Proof.
  destruct (keyPool_get (prop (body req) "model") "aws") as [e|k] eqn:Hk.
  { rewrite (signAwsRequest_no_key _ _ _ _ Hk). done. }
  destruct (getCredentialParts_cases k) as [[c Hc] | Hc].
  2:{ rewrite (signAwsRequest_bad_key _ _ _ _ Hk Hc). done. }
  destruct (resource_identifier k (prop (body req) "model"))
    as [e|[profile id]] eqn:Hid.
  { rewrite (signAwsRequest_bad_model _ _ _ _ _ _ Hk Hc Hid). done. }
  destruct (getStrictlyValidatedBodyForAws req) as [e|params] eqn:Hb.
  { rewrite (signAwsRequest_bad_body _ _ _ _ _ _ _ _ Hk Hc Hid Hb). done. }
  rewrite (signAwsRequest_signed _ _ _ _ _ _ _ _ Hk Hc Hid Hb).
  intros [= <-]. exists k, c, profile, id, params. done.
Qed.

(** The signer leaves the path alone and adds three headers of its own. *)
Lemma sign_path longDate r c :
  HttpRequest.path (sign longDate r c) = HttpRequest.path r.
Proof. reflexivity. Qed.

Lemma sign_headers longDate r c name :
  name ≠ "authorization" → name ≠ "x-amz-content-sha256" → name ≠ "x-amz-date" →
  HttpRequest.headers (sign longDate r c) !! name = HttpRequest.headers r !! name.
Proof.
  intros H1 H2 H3. unfold sign, SignatureV4_sign, HttpRequest.set_header. simpl.
  by rewrite !lookup_insert_ne.
Qed.

(** *** Choice of the resource identifier *)

Lemma find_first_match {A} (f : A → bool) (l pre post : list A) (p : A) :
  l = pre ++ p :: post → f p = true → (∀ q, q ∈ pre → f q = false) →
  List.find f l = Some p.
Proof.
  intros -> Hp Hpre. induction pre as [|q pre IH]; simpl.
  - by rewrite Hp.
  - rewrite (Hpre q) by set_solver. apply IH. intros q' Hq'. apply Hpre. set_solver.
Qed.

Lemma find_no_match {A} (f : A → bool) (l : list A) :
  (∀ q, q ∈ l → f q = false) → List.find f l = None.
Proof.
  induction l as [|q l IH]; simpl; [done|]. intros Hl.
  rewrite (Hl q) by set_solver. apply IH. intros q' Hq'. apply Hl. set_solver.
Qed.

Lemma includes_false s sub : ¬ contains s sub → JsString.includes s sub = false.
Proof.
  intros Hn. destruct (JsString.includes s sub) eqn:Hi; [|done].
  destruct Hn. by apply includes_spec.
Qed.

Lemma contains_empty sub : contains "" sub → sub = "".
Proof.
  intros (before & after & Heq). destruct before, sub; str_norm; done.
Qed.

(** Induction on a value through the items of its arrays. *)
Lemma jsval_items_ind (P : jsval → Prop) :
  P JUndefined → P JNull → (∀ b, P (JBool b)) → (∀ q, P (JNum q)) →
  (∀ s, P (JStr s)) →
  (∀ items, Forall P items → P (JArr items)) →
  (∀ props, P (JObj props)) →
  ∀ v, P v.
Proof.
  intros Hundefined Hnull Hbool Hnum Hstr Harr Hobj.
  fix IH 1. intros [| |b|q|s|items|props].
  - exact Hundefined.
  - exact Hnull.
  - apply Hbool.
  - apply Hnum.
  - apply Hstr.
  - apply Harr.
    induction items as [|x items IHitems]; constructor; [apply IH | exact IHitems].
  - apply Hobj.
Qed.

(** The one error of the conversion to text. *)
Lemma ToString_TypeError v e :
  ToString v = inl e →
  e = TypeError "Cannot convert object to primitive value".
Proof.
  revert e. induction v as [| |[|]|q|s|items IH|props] using jsval_items_ind;
    intros e; simpl; try discriminate.
  - destruct (item_texts _ items) as [e'|ss] eqn:Hitems; [|discriminate].
    intros [= <-]. revert e' Hitems.
    induction IH as [|x items Hx _ IHitems]; intros e'; simpl; [discriminate|].
    destruct (match x with JUndefined | JNull => inr "" | _ => ToString x end)
      as [e''|text] eqn:Htext.
    + intros [= <-]. destruct x; try discriminate Htext; by apply Hx.
    + destruct (item_texts _ items) as [e''|ss] eqn:Hrest; [|discriminate].
      intros [= <-]. by apply IHitems.
  - destruct (has_own props "toString"); [by intros [= <-] | discriminate].
Qed.

(** A model that has a text: the callback of [find] never throws. *)
Lemma Array_find_text model text l :
  ToString model = inr text →
  Array_find (includes_value model) l
  = inr (List.find (λ p, JsString.includes p text) l).
Proof.
  intros Ht. induction l as [|p l IH]; simpl; [done|].
  unfold includes_value at 1. rewrite Ht.
  destruct (JsString.includes p text); [done | apply IH].
Qed.

(** A model that has no text: the first call of the callback throws. *)
Lemma Array_find_throws model e l :
  ToString model = inl e → l ≠ [] →
  Array_find (includes_value model) l = inl e.
Proof.
  intros Ht Hl. destruct l as [|p l]; [done|]. simpl.
  unfold includes_value. by rewrite Ht.
Qed.

Lemma selectProfile_text k model text :
  ToString model = inr text →
  selectProfile k model
  = inr (match List.find (λ p, JsString.includes p text)
                 (inferenceProfileIds k) with
         | Some p => if truthy (JStr p) then JStr p else model
         | None => model
         end).
Proof.
  intros Ht. unfold selectProfile. rewrite (Array_find_text _ _ _ Ht).
  by destruct (List.find _ _).
Qed.

Lemma selectProfile_throws k model e :
  ToString model = inl e → inferenceProfileIds k ≠ [] →
  selectProfile k model = inl e.
Proof.
  intros Ht Hl. unfold selectProfile. by rewrite (Array_find_throws _ _ _ Ht Hl).
Qed.

Lemma selectProfile_match k (model : string) pre p post :
  inferenceProfileIds k = pre ++ p :: post →
  contains p model →
  (∀ q, q ∈ pre → ¬ contains q model) →
  selectProfile k (JStr model) = inr (JStr p).
Proof.
  intros Hl Hp Hpre. rewrite (selectProfile_text _ _ model) by done.
  rewrite (find_first_match _ _ pre post p Hl).
  - destruct p as [|c p]; [|done]. simpl. by rewrite (contains_empty _ Hp).
  - by apply includes_spec.
  - intros q Hq. by apply includes_false, Hpre.
Qed.

Lemma selectProfile_fallback k (model : string) :
  (∀ q, q ∈ inferenceProfileIds k → ¬ contains q model) →
  selectProfile k (JStr model) = inr (JStr model).
Proof.
  intros Hl. rewrite (selectProfile_text _ _ model) by done.
  rewrite find_no_match; [done|].
  intros q Hq. by apply includes_false, Hl.
Qed.

(** For a string model the chosen identifier is a string, and its own
    text. *)
Lemma selectProfile_string k (model : string) :
  ∃ id, selectProfile k (JStr model) = inr (JStr id)
        ∧ resource_identifier k (JStr model) = inr (JStr id, id).
Proof.
  unfold resource_identifier. rewrite (selectProfile_text _ _ model) by done.
  destruct (List.find _ _) as [p|]; [|by eauto].
  destruct (truthy (JStr p)); eauto.
Qed.

(** A model that has a text gives an identifier that has one: the profile
    found, or the model itself. *)
Lemma resource_identifier_text k model text :
  ToString model = inr text →
  ∃ profile id, resource_identifier k model = inr (profile, id).
Proof.
  intros Ht. unfold resource_identifier. rewrite (selectProfile_text _ _ _ Ht).
  destruct (List.find _ _) as [p|]; [|rewrite Ht; by eauto].
  destruct (truthy (JStr p)); [simpl | rewrite Ht]; by eauto.
Qed.

(** A model that has no text throws, at the search or at the path. *)
Lemma resource_identifier_throws k model e :
  ToString model = inl e → resource_identifier k model = inl e.
Proof.
  intros Ht. unfold resource_identifier.
  destruct (inferenceProfileIds k) as [|p l] eqn:Hl.
  - unfold selectProfile. rewrite Hl. simpl. by rewrite Ht.
  - rewrite (selectProfile_throws _ _ _ Ht); [done|]. by rewrite Hl.
Qed.

(** *** The built request *)

Lemma newRequest_path host id stream params :
  HttpRequest.path (newRequest host id stream params)
  = "/model/" +:+ id +:+ "/invoke" +:+ invoke_suffix stream.
Proof.
  unfold newRequest, invoke_suffix.
  destruct (truthy stream); simpl; by rewrite !append_cons.
Qed.

Lemma newRequest_headers_stream host id stream params :
  truthy stream = true →
  HttpRequest.headers (newRequest host id stream params)
  = <["x-amzn-bedrock-accept" := "application/json"]>
      (<["Host" := host]> (<["content-type" := "application/json"]> ∅)).
Proof. intros Hs. unfold newRequest. by rewrite Hs. Qed.

Lemma newRequest_headers_plain host id stream params :
  truthy stream = false →
  HttpRequest.headers (newRequest host id stream params)
  = <["accept" := "*/*"]>
      (<["Host" := host]> (<["content-type" := "application/json"]> ∅)).
Proof. intros Hs. unfold newRequest. by rewrite Hs. Qed.

(** C3. For every sequence of inference-profile ids and every requested
    model id, the chosen resource identifier is the first profile that
    contains the model id as a substring when there is one, and the model id
    itself otherwise; the path of the signed request carries the chosen
    identifier unchanged. *)
Theorem profile_selection (k : AwsBedrockKey) (model : string) :
  (∀ pre p post,
     inferenceProfileIds k = pre ++ p :: post →
     contains p model →
     (∀ q, q ∈ pre → ¬ contains q model) →
     selectProfile k (JStr model) = inr (JStr p))
  ∧ ((∀ q, q ∈ inferenceProfileIds k → ¬ contains q model) →
     selectProfile k (JStr model) = inr (JStr model))
  ∧ (∀ longDate req w w',
       prop (body req) "model" = JStr model →
       keyPool_get (JStr model) "aws" = inr k →
       signAwsRequest longDate req w = (w', inr tt) →
       ∃ r id,
         signedRequest w' = Some r ∧
         selectProfile k (JStr model) = inr (JStr id) ∧
         HttpRequest.path r
         = "/model/" +:+ id +:+ "/invoke" +:+ invoke_suffix (prop (body req) "stream")).
Proof.
  split; [|split].
  - apply selectProfile_match.
  - apply selectProfile_fallback.
  - intros longDate req w w' Hm Hk Hrun.
    apply signAwsRequest_inv in Hrun
      as (k' & c & profile & id' & params & Hk' & _ & Hid' & _ & Hs).
    rewrite Hm, Hk in Hk'. injection Hk' as <-.
    destruct (selectProfile_string k model) as (id & Hsel & Hid).
    rewrite Hm, Hid in Hid'. injection Hid' as <- <-.
    eexists _, id. split; [exact Hs|]. split; [exact Hsel|].
    rewrite sign_path. unfold built_request. by rewrite newRequest_path.
Qed.

(** C4. With a truthy [stream] the path is
    [/model/<identifier>/invoke-with-response-stream] and the headers carry
    [x-amzn-bedrock-accept] and no [accept]; otherwise the path is
    [/model/<identifier>/invoke] and the headers carry the wildcard [accept]
    and no [x-amzn-bedrock-accept]; so exactly one of the two headers is
    present. This holds of every request built for the signer and of the
    request once signed, and the request a run of the mutator hands over is
    such a request, built from the text of the chosen identifier and the
    [stream] of the body. *)
Theorem streaming_toggle :
  (∀ host id stream params longDate c r',
     r' = newRequest host id stream params
     ∨ r' = sign longDate (newRequest host id stream params) c →
     (truthy stream = true →
        HttpRequest.path r'
        = "/model/" +:+ id +:+ "/invoke-with-response-stream"
        ∧ HttpRequest.headers r' !! "x-amzn-bedrock-accept" = Some "application/json"
        ∧ HttpRequest.headers r' !! "accept" = None)
     ∧ (truthy stream = false →
        HttpRequest.path r' = "/model/" +:+ id +:+ "/invoke"
        ∧ HttpRequest.headers r' !! "accept" = Some "*/*"
        ∧ HttpRequest.headers r' !! "x-amzn-bedrock-accept" = None)
     ∧ (is_Some (HttpRequest.headers r' !! "accept")
        ↔ ¬ is_Some (HttpRequest.headers r' !! "x-amzn-bedrock-accept")))
  ∧ (∀ longDate req w w',
       signAwsRequest longDate req w = (w', inr tt) →
       ∃ k c profile id params,
         selectProfile k (prop (body req) "model") = inr profile
         ∧ ToString profile = inr id
         ∧ signedRequest w'
           = Some (sign longDate
                     (newRequest (JsString.replace AMZ_HOST "%REGION%" (region c))
                        id (prop (body req) "stream") params) c)).
Proof.
  split.
  - intros host id stream params longDate c r' Hr'.
    assert (HttpRequest.path r'
            = HttpRequest.path (newRequest host id stream params)
            ∧ HttpRequest.headers r' !! "accept"
              = HttpRequest.headers (newRequest host id stream params)
                  !! "accept"
            ∧ HttpRequest.headers r' !! "x-amzn-bedrock-accept"
              = HttpRequest.headers (newRequest host id stream params)
                  !! "x-amzn-bedrock-accept") as (-> & -> & ->).
    { destruct Hr' as [-> | ->]; [done|].
      rewrite sign_path, !sign_headers by done. done. }
    clear Hr'. rewrite newRequest_path. unfold invoke_suffix.
    destruct (truthy stream) eqn:Hstream.
    + rewrite newRequest_headers_stream by done.
      rewrite lookup_insert_eq, !lookup_insert_ne, lookup_empty by done.
      split; [done|]. split; [done|].
      split; [by intros [? [=]] | intros Hn; destruct Hn; eauto].
    + rewrite newRequest_headers_plain by done.
      rewrite lookup_insert_eq, !lookup_insert_ne, lookup_empty by done.
      split; [done|]. split; [intros _; split; [reflexivity | done] |].
      split; [by intros _ [? [=]] | eauto].
  - intros longDate req w w' Hrun.
    apply signAwsRequest_inv in Hrun
      as (k & c & profile & id & params & _ & _ & Hid & _ & Hs).
    exists k, c, profile, id, params.
    unfold resource_identifier in Hid.
    destruct (selectProfile k (prop (body req) "model")) as [e|profile']; [done|].
    destruct (ToString profile') as [e|id'] eqn:Ht; [done|].
    injection Hid as <- <-. done.
Qed.

(** C5. For an outbound API outside the four supported ones the sanitizer
    throws the unsupported-API error whatever the body is, and the
    mutator signs nothing. *)
Theorem unsupported_dialect (req : Request) :
  outboundApi req ∉ ["anthropic-text"; "anthropic-chat"; "mistral-ai"; "mistral-text"] →
  getStrictlyValidatedBodyForAws req = inl unsupported_api_error
  ∧ ∀ longDate w,
      (signAwsRequest longDate req w).2 ≠ inr tt
      ∧ signedRequest (signAwsRequest longDate req w).1 = signedRequest w.
Proof.
  intros Hapi.
  assert (getStrictlyValidatedBodyForAws req = inl unsupported_api_error) as Hb.
  { unfold getStrictlyValidatedBodyForAws.
    repeat match goal with
           | |- context [String.eqb (outboundApi req) ?api] =>
               destruct (String.eqb_spec (outboundApi req) api) as [Heq|_];
               [exfalso; apply Hapi; rewrite Heq; set_solver|]
           end.
    done. }
  split; [exact Hb|]. intros longDate w.
  destruct (keyPool_get (prop (body req) "model") "aws") as [e|k] eqn:Hk.
  { by rewrite (signAwsRequest_no_key _ _ _ _ Hk). }
  destruct (getCredentialParts_cases k) as [[c Hc] | Hc].
  - destruct (resource_identifier k (prop (body req) "model"))
      as [e|[profile id]] eqn:Hid.
    + by rewrite (signAwsRequest_bad_model _ _ _ _ _ _ Hk Hc Hid).
    + by rewrite (signAwsRequest_bad_body _ _ _ _ _ _ _ _ Hk Hc Hid Hb).
  - by rewrite (signAwsRequest_bad_key _ _ _ _ Hk Hc).
Qed.

(** C9. When the credential extraction fails, what is logged and what is
    thrown are built from the key's hash alone: the one report logged
    carries the hash as its only field, the thrown error is a constant, and
    two failing keys with the same hash are indistinguishable in both,
    whatever their secrets are; the same holds of the mutator as a whole. *)
Theorem invalid_key_reported_by_hash (k : AwsBedrockKey) :
  (∀ c, (getCredentialParts k).2 ≠ inr c) →
  getCredentialParts k = ([invalid_key_report (hash k)], inl invalid_key_error)
  ∧ (∀ k', (∀ c, (getCredentialParts k').2 ≠ inr c) →
           hash k' = hash k →
           getCredentialParts k' = getCredentialParts k)
  ∧ (∀ longDate req w,
       keyPool_get (prop (body req) "model") "aws" = inr k →
       log (signAwsRequest longDate req w).1
       = log w ++ [invalid_key_report (hash k)]
       ∧ (signAwsRequest longDate req w).2 = inl invalid_key_error).
Proof.
  assert (∀ k0, (∀ c, (getCredentialParts k0).2 ≠ inr c) →
            getCredentialParts k0
            = ([invalid_key_report (hash k0)], inl invalid_key_error)) as Hfail.
  { intros k0 Hk0. destruct (getCredentialParts_cases k0) as [[c Hc] | Hc]; [|done].
    destruct (Hk0 c). by rewrite Hc. }
  intros Hk. split; [by apply Hfail|]. split.
  - intros k' Hk' Hh. rewrite (Hfail k Hk), (Hfail k' Hk'), Hh. done.
  - intros longDate req w Hpool.
    by rewrite (signAwsRequest_bad_key _ _ _ _ Hpool (Hfail k Hk)).
Qed.

End Orchestration.

(** ** Object schemas *)



Lemma prop_absent (data : gmap string jsval) k :
  data !! k = None → prop data k = JUndefined.
Proof. intros Hk. unfold prop. by rewrite Hk. Qed.

Lemma fields_valid_spec (sh : gmap string ZodType) data :
  forallb (λ kt, field_valid data kt.1 kt.2) (map_to_list sh) = true ↔
  ∀ k ty, sh !! k = Some ty → ∃ v, ty (prop data k) = inr v.
Proof.
  rewrite forallb_forall. split.
  - intros Hall k ty Hk.
    specialize (Hall (k, ty)). unfold field_valid in Hall. simpl in Hall.
    destruct (ty (prop data k)) as [issues|v]; [|by eauto].
    discriminate Hall. by apply list_elem_of_In, elem_of_map_to_list.
  - intros Hall [k ty] Hin%list_elem_of_In%elem_of_map_to_list.
    destruct (Hall k ty Hin) as [v Hv]. unfold field_valid. simpl. by rewrite Hv.
Qed.

Lemma valid_spec schema data :
  valid schema data = true ↔
  (∀ k ty, shape schema !! k = Some ty → ∃ v, ty (prop data k) = inr v)
  ∧ (unknownKeys schema = uk_strict → extra_keys schema data = ∅).
Proof.
  unfold valid. rewrite andb_true_iff, fields_valid_spec.
  destruct (unknownKeys schema).
  - split; [intros [Hf _]; by split | intros [Hf _]; by split].
  - rewrite bool_decide_eq_true.
    split; [intros [Hf He]; by split | intros [Hf He]; split; auto].
  - split; [intros [Hf _]; by split | intros [Hf _]; by split].
Qed.

Lemma parse_ok schema data out :
  parse schema data = inr out ↔
  valid schema data = true ∧ out = parsed_object schema data.
Proof.
  unfold parse. destruct (valid schema data).
  - split; [intros [= <-]; by split | by intros [_ ->]].
  - split; [done | by intros [? _]].
Qed.

Lemma parse_invalid schema data :
  valid schema data = false →
  parse schema data = inl (ZodError (all_issues schema data)).
Proof. intros Hv. unfold parse. by rewrite Hv. Qed.

(** Without pass-through the result holds the parsed fields of the shape and
    nothing else. *)
Lemma parsed_object_lookup schema data k :
  unknownKeys schema ≠ uk_passthrough →
  parsed_object schema data !! k
  = shape schema !! k ≫= field_value data k.
Proof.
  intros Hp. unfold parsed_object.
  destruct (unknownKeys schema); [done| |]; apply map_lookup_imap.
Qed.

Lemma parsed_object_dom schema data :
  unknownKeys schema ≠ uk_passthrough →
  dom (parsed_object schema data) ⊆ dom (shape schema).
Proof.
  intros Hp k [v Hv]%elem_of_dom. rewrite parsed_object_lookup in Hv by done.
  apply elem_of_dom. destruct (shape schema !! k); [eauto | done].
Qed.

Lemma pick_lookup mask schema k :
  shape (pick mask schema) !! k
  = if decide (k ∈ mask) then shape schema !! k else None.
Proof.
  unfold pick. simpl. destruct (shape schema !! k) as [ty|] eqn:Hk.
  - case_decide.
    + by apply map_lookup_filter_Some.
    + apply map_lookup_filter_None. right. intros ty' _. done.
  - rewrite (proj2 (map_lookup_filter_None _ _ _)); [by case_decide | by left].
Qed.

Lemma pick_dom mask schema : dom (shape (pick mask schema)) ⊆ mask.
Proof.
  intros k [ty Hk]%elem_of_dom. rewrite pick_lookup in Hk. by case_decide.
Qed.


Lemma extra_keys_witness schema (data : gmap string jsval) k :
  k ∈ dom data → k ∉ dom (shape schema) → k ∈ dom (extra_keys schema data).
Proof.
  intros [v Hv]%elem_of_dom Hk. apply elem_of_dom. exists v.
  by apply map_lookup_filter_Some.
Qed.




(** ** The body sanitizer *)

Section Sanitizer.

Context `{!Imports, !SignerPrimitives}.

Lemma sanitize_text req :
  outboundApi req = "anthropic-text" →
  getStrictlyValidatedBodyForAws req
  = parse (strip (pick text_mask AnthropicV1TextSchema)) (body req).
Proof. intros Hapi. unfold getStrictlyValidatedBodyForAws. by rewrite Hapi. Qed.

Lemma sanitize_chat req :
  outboundApi req = "anthropic-chat" →
  getStrictlyValidatedBodyForAws req
  = match parse (strip (pick chat_mask AnthropicV1MessagesSchema)) (body req) with
    | inr strippedParams =>
        inr (<["anthropic_version" := JStr "bedrock-2023-05-31"]> strippedParams)
    | inl e => inl e
    end.
Proof. intros Hapi. unfold getStrictlyValidatedBodyForAws. by rewrite Hapi. Qed.

Lemma sanitize_mistral_chat req :
  outboundApi req = "mistral-ai" →
  getStrictlyValidatedBodyForAws req
  = parse AWSMistralV1ChatCompletionsSchema (body req).
Proof. intros Hapi. unfold getStrictlyValidatedBodyForAws. by rewrite Hapi. Qed.

Lemma sanitize_mistral_text req :
  outboundApi req = "mistral-text" →
  getStrictlyValidatedBodyForAws req
  = parse AWSMistralV1TextCompletionsSchema (body req).
Proof. intros Hapi. unfold getStrictlyValidatedBodyForAws. by rewrite Hapi. Qed.


(** The parsed fields of a picked, stripping schema. *)
Lemma parse_pick_strip mask schema data out :
  parse (strip (pick mask schema)) data = inr out →
  dom out ⊆ mask
  ∧ ∀ k v, out !! k = Some v →
      ∃ ty, shape schema !! k = Some ty ∧ ty (prop data k) = inr v.
Proof.
  intros [_ ->]%parse_ok. split.
  - etrans; [by apply parsed_object_dom | apply pick_dom].
  - intros k v. rewrite parsed_object_lookup by done.
    change (shape (strip (pick mask schema))) with (shape (pick mask schema)).
    rewrite pick_lookup. case_decide; [|done].
    destruct (shape schema !! k) as [ty|]; [|done]. simpl.
    unfold field_value. destruct (ty (prop data k)) as [|v'] eqn:Hty; [done|].
    case_match; [done|]. intros [= ->]. eauto.
Qed.


Lemma version_not_in_chat_mask : "anthropic_version" ∉ chat_mask.
Proof. unfold chat_mask. rewrite !not_elem_of_union, !not_elem_of_singleton. done. Qed.

Lemma version_not_in_text_mask : "anthropic_version" ∉ text_mask.
Proof. unfold text_mask. rewrite !not_elem_of_union, !not_elem_of_singleton. done. Qed.

(** C1. The sanitized body of an anthropic-text request has its keys among
    prompt, max_tokens_to_sample, stop_sequences, temperature, top_k, top_p,
    each value being what the schema parsed from the body's field, and no
    anthropic_version; the sanitized body of an anthropic-chat request has
    its keys among messages, system, max_tokens, stop_sequences,
    temperature, top_k, top_p and anthropic_version, holds the fixed
    anthropic_version whatever the client sent, and holds no other field. *)
Theorem sanitizer_projection (req : Request) (out : gmap string jsval) :
  getStrictlyValidatedBodyForAws req = inr out →
  (outboundApi req = "anthropic-text" →
     dom out ⊆ {[ "prompt"; "max_tokens_to_sample"; "stop_sequences";
                  "temperature"; "top_k"; "top_p" ]}
     ∧ out !! "anthropic_version" = None
     ∧ ∀ k v, out !! k = Some v →
         ∃ ty, shape AnthropicV1TextSchema !! k = Some ty
               ∧ ty (prop (body req) k) = inr v)
  ∧ (outboundApi req = "anthropic-chat" →
     dom out ⊆ {[ "messages"; "system"; "max_tokens"; "stop_sequences";
                  "temperature"; "top_k"; "top_p" ]} ∪ {[ "anthropic_version" ]}
     ∧ out !! "anthropic_version" = Some (JStr "bedrock-2023-05-31")
     ∧ ∀ k, k ∉ ({[ "messages"; "system"; "max_tokens"; "stop_sequences";
                    "temperature"; "top_k"; "top_p" ]} : gset string) →
            k ≠ "anthropic_version" → out !! k = None).
Proof.
  intros Hout. split; intros Hapi.
  - rewrite (sanitize_text _ Hapi) in Hout.
    apply parse_pick_strip in Hout as [Hdom Hvals].
    split; [exact Hdom|]. split; [|exact Hvals].
    apply not_elem_of_dom. intros Hin. by apply version_not_in_text_mask, Hdom.
  - rewrite (sanitize_chat _ Hapi) in Hout.
    destruct (parse _ (body req)) as [e|params] eqn:Hparse; [done|].
    injection Hout as <-.
    apply parse_pick_strip in Hparse as [Hdom _].
    split; [|split].
    + rewrite dom_insert_L. intros k [->%elem_of_singleton | Hk]%elem_of_union.
      * apply elem_of_union_r. by apply elem_of_singleton.
      * apply elem_of_union_l, Hdom, Hk.
    + apply lookup_insert_eq.
    + intros k Hk Hne. rewrite lookup_insert_ne by done.
      apply not_elem_of_dom. intros Hin. apply Hk, Hdom, Hin.
Qed.


(** *** Strict schemas *)

Lemma missing_is_invalid sh data k issues :
  missing_field sh data k issues → invalid_field sh data k issues.
Proof.
  intros (ty & Hk & Hnone & Hty). exists ty. split; [done|].
  by rewrite (prop_absent _ _ Hnone).
Qed.

Lemma strict_rejects sh data :
  (∃ k, extraneous_field sh data k)
  ∨ (∃ k issues, invalid_field sh data k issues)
  ∨ (∃ k issues, missing_field sh data k issues) →
  valid {| shape := sh; unknownKeys := uk_strict |} data = false.
Proof.
  intros Hbad. apply not_true_is_false. intros [Hfields Hextra]%valid_spec.
  simpl in *. specialize (Hextra eq_refl).
  destruct Hbad as [[k [Hin Hout]] | [(k & issues & Hinv) | (k & issues & Hmiss)]].
  - pose proof (extra_keys_witness {| shape := sh; unknownKeys := uk_strict |}
                  data k Hin Hout) as Hk.
    rewrite Hextra, dom_empty_L in Hk. by apply not_elem_of_empty in Hk.
  - destruct Hinv as (ty & Hk & Hty). destruct (Hfields _ _ Hk) as [v Hv]. congruence.
  - apply missing_is_invalid in Hmiss as (ty & Hk & Hty).
    destruct (Hfields _ _ Hk) as [v Hv]. congruence.
Qed.

Lemma all_issues_field schema data k issues i :
  invalid_field (shape schema) data k issues → i ∈ issues →
  at_key k i ∈ all_issues schema data.
Proof.
  intros (ty & Hk & Hty) Hi. unfold all_issues. apply elem_of_app. left.
  apply list_elem_of_join. exists (field_issues data k ty). split.
  - unfold field_issues. rewrite Hty. by apply list_elem_of_fmap_2.
  - apply (list_elem_of_fmap_2 (λ kt, field_issues data kt.1 kt.2) _ (k, ty)).
    by apply elem_of_map_to_list.
Qed.

Lemma all_issues_extraneous sh data k :
  extraneous_field sh data k →
  ∃ i ks, i ∈ all_issues {| shape := sh; unknownKeys := uk_strict |} data
          ∧ issue_code i = unrecognized_keys ks ∧ k ∈ ks.
Proof.
  intros [Hin Hout].
  pose proof (extra_keys_witness {| shape := sh; unknownKeys := uk_strict |}
                data k Hin Hout) as Hk.
  eexists _, _. split; [|split; [|exact Hk]].
  - unfold all_issues, unknown_issues. simpl. apply elem_of_app. right.
    case_decide as Hempty.
    + rewrite Hempty, dom_empty_L in Hk. by apply not_elem_of_empty in Hk.
    + apply list_elem_of_singleton. reflexivity.
  - done.
Qed.

(** C8. For mistral-ai and mistral-text the body is validated against the
    strict schema of that API: when the body has an extraneous field, a field
    with an invalid value or lacks a required field, the sanitizer throws a
    validation error that names the offending field, nothing is dropped
    silently, and the mutator signs nothing and throws the same error; a
    model without text is the one exception to the latter: its TypeError is
    thrown before the body is validated. *)
Theorem mistral_strict_validation (req : Request) (sh : gmap string ZodType) :
  (outboundApi req = "mistral-ai" ∧ sh = AWSMistralV1ChatCompletionsShape)
  ∨ (outboundApi req = "mistral-text" ∧ sh = AWSMistralV1TextCompletionsShape) →
  (∃ k, extraneous_field sh (body req) k)
  ∨ (∃ k issues, invalid_field sh (body req) k issues)
  ∨ (∃ k issues, missing_field sh (body req) k issues) →
  ∃ issues,
    getStrictlyValidatedBodyForAws req = inl (ZodError issues)
    ∧ (∀ k, extraneous_field sh (body req) k →
         ∃ i ks, i ∈ issues ∧ issue_code i = unrecognized_keys ks ∧ k ∈ ks)
    ∧ (∀ k found i, invalid_field sh (body req) k found → i ∈ found →
         at_key k i ∈ issues)
    ∧ (∀ k found i, missing_field sh (body req) k found → i ∈ found →
         at_key k i ∈ issues)
    ∧ (∀ longDate w assigned c,
         keyPool_get (prop (body req) "model") "aws" = inr assigned →
         getCredentialParts assigned = ([], inr c) →
         signedRequest (signAwsRequest longDate req w).1 = signedRequest w
         ∧ (∀ text, ToString (prop (body req) "model") = inr text →
              (signAwsRequest longDate req w).2 = inl (ZodError issues))
         ∧ (∀ e, ToString (prop (body req) "model") = inl e →
              (signAwsRequest longDate req w).2 = inl e)).
Proof.
  intros Hapi Hbad.
  set (schema := {| shape := sh; unknownKeys := uk_strict |}).
  assert (getStrictlyValidatedBodyForAws req
          = inl (ZodError (all_issues schema (body req)))) as Hthrow.
  { destruct Hapi as [[Hapi ->] | [Hapi ->]].
    - rewrite (sanitize_mistral_chat _ Hapi). by apply parse_invalid, strict_rejects.
    - rewrite (sanitize_mistral_text _ Hapi). by apply parse_invalid, strict_rejects. }
  exists (all_issues schema (body req)).
  split; [exact Hthrow|]. split; [|split; [|split]].
  - intros k Hk. by apply all_issues_extraneous.
  - intros k found i Hinv Hi. by apply (all_issues_field schema _ k found).
  - intros k found i Hmiss Hi.
    apply (all_issues_field schema _ k found); [|done].
    by apply missing_is_invalid.
  - intros longDate w assigned c Hpool Hcred.
    destruct (ToString (prop (body req) "model")) as [e|text] eqn:Ht.
    + rewrite (signAwsRequest_bad_model _ _ _ _ _ _ Hpool Hcred
                 (resource_identifier_throws assigned _ _ Ht)).
      split; [done|]. split; [done|]. by intros e' [= <-].
    + destruct (resource_identifier_text assigned _ _ Ht) as (profile & id & Hid).
      rewrite (signAwsRequest_bad_body _ _ _ _ _ _ _ _ Hpool Hcred Hid Hthrow).
      split; [done|]. split; [done|]. done.
Qed.

End Sanitizer.

(** ** The statements at the fixture *)

Lemma profile_selection_witness :
  @selectProfile Fixture.imports
    {| key := "a:b:c"; hash := "h"; inferenceProfileIds := ["foo-v2"; "bar-v2"] |}
    (JStr "foo") = inr (JStr "foo-v2")
  ∧ @selectProfile Fixture.imports
      {| key := "a:b:c"; hash := "h"; inferenceProfileIds := [] |}
      (JStr "m1") = inr (JStr "m1")
  ∧ ∃ r id,
      signedRequest
        (@signAwsRequest Fixture.imports Fixture.primitives Fixture.now
           Fixture.stream_request Fixture.empty_world).1 = Some r
      ∧ @selectProfile Fixture.imports Fixture.the_key (JStr "foo")
        = inr (JStr id)
      ∧ HttpRequest.path r
        = "/model/" +:+ id +:+ "/invoke"
          +:+ invoke_suffix (prop (body Fixture.stream_request) "stream").
Proof.
  split; [|split].
  - apply (@profile_selection Fixture.imports Fixture.primitives _ "foo")
      with (pre := []) (post := ["bar-v2"]).
    + reflexivity.
    + exists "", "-v2". reflexivity.
    + intros q Hq. inversion Hq.
  - apply (@profile_selection Fixture.imports Fixture.primitives _ "m1").
    intros q Hq. inversion Hq.
  - apply (@profile_selection Fixture.imports Fixture.primitives
             Fixture.the_key "foo")
      with (longDate := Fixture.now) (w := Fixture.empty_world).
    + reflexivity.
    + reflexivity.
    + vm_compute. reflexivity.
Defined.

Lemma streaming_toggle_witness :
  (∀ r', r' = @newRequest Fixture.imports "h" "foo-v2" (JBool true) ∅
         ∨ r' = @sign Fixture.primitives Fixture.now
                  (@newRequest Fixture.imports "h" "foo-v2" (JBool true) ∅)
                  {| accessKeyId := "AK"; secretAccessKey := "SK"; region := "r" |} →
     HttpRequest.path r' = "/model/foo-v2/invoke-with-response-stream"
     ∧ HttpRequest.headers r' !! "x-amzn-bedrock-accept" = Some "application/json"
     ∧ HttpRequest.headers r' !! "accept" = None)
  ∧ (∀ r', r' = @newRequest Fixture.imports "h" "m1" (JBool false) ∅ →
     HttpRequest.path r' = "/model/m1/invoke"
     ∧ HttpRequest.headers r' !! "accept" = Some "*/*"
     ∧ HttpRequest.headers r' !! "x-amzn-bedrock-accept" = None)
  ∧ ∃ k c profile id params,
      @selectProfile Fixture.imports k
        (prop (body Fixture.stream_request) "model") = inr profile
      ∧ @ToString Fixture.imports profile = inr id
      ∧ signedRequest
          (@signAwsRequest Fixture.imports Fixture.primitives Fixture.now
             Fixture.stream_request Fixture.empty_world).1
        = Some (@sign Fixture.primitives Fixture.now
                  (@newRequest Fixture.imports
                     (JsString.replace (@AMZ_HOST Fixture.imports) "%REGION%"
                        (region c))
                     id (prop (body Fixture.stream_request) "stream") params) c).
Proof.
  destruct (@streaming_toggle Fixture.imports Fixture.primitives)
    as [Hbuilt Hrun].
  split; [|split].
  - intros r' Hr'.
    destruct (Hbuilt _ _ _ _ _ _ r' Hr') as (Hon & _ & _). exact (Hon eq_refl).
  - intros r' Hr'.
    destruct (Hbuilt "h" "m1" (JBool false) ∅ Fixture.now
                {| accessKeyId := "AK"; secretAccessKey := "SK"; region := "r" |}
                r' (or_introl Hr')) as (_ & Hoff & _).
    exact (Hoff eq_refl).
  - apply (Hrun Fixture.now Fixture.stream_request Fixture.empty_world).
    vm_compute. reflexivity.
Defined.

Lemma unsupported_dialect_witness :
  @getStrictlyValidatedBodyForAws Fixture.imports Fixture.openai_request
  = inl unsupported_api_error
  ∧ signedRequest
      (@signAwsRequest Fixture.imports Fixture.primitives Fixture.now
         Fixture.openai_request Fixture.empty_world).1 = None.
Proof.
  assert (outboundApi Fixture.openai_request
          ∉ ["anthropic-text"; "anthropic-chat"; "mistral-ai"; "mistral-text"])
    as Hapi.
  { refine (bool_decide_unpack _ _). vm_compute. exact I. }
  destruct (@unsupported_dialect Fixture.imports Fixture.primitives
              Fixture.openai_request Hapi) as [Hb Hrun].
  split; [exact Hb|]. apply (Hrun Fixture.now Fixture.empty_world).
Defined.

Lemma invalid_key_reported_by_hash_witness :
  getCredentialParts Fixture.bad_key
  = ([invalid_key_report "aws-77b0de"], inl invalid_key_error)
  ∧ log (@signAwsRequest Fixture.imports_bad_key Fixture.primitives Fixture.now
           Fixture.stream_request Fixture.empty_world).1
    = [invalid_key_report "aws-77b0de"].
Proof.
  assert (∀ c, (getCredentialParts Fixture.bad_key).2 ≠ inr c) as Hbad.
  { intros c. vm_compute. discriminate. }
  destruct (@invalid_key_reported_by_hash Fixture.imports_bad_key
              Fixture.primitives Fixture.bad_key Hbad) as (Hc & _ & Hrun).
  split; [exact Hc|].
  apply (Hrun Fixture.now Fixture.stream_request Fixture.empty_world eq_refl).
Defined.

Lemma idempotent_z_string : idempotent z_string.
Proof. intros v v'. destruct v; simpl; intros [= <-]; done. Qed.

Lemma idempotent_z_number : idempotent z_number.
Proof. intros v v'. destruct v; simpl; intros [= <-]; done. Qed.

Lemma idempotent_z_boolean : idempotent z_boolean.
Proof. intros v v'. destruct v; simpl; intros [= <-]; done. Qed.

Lemma idempotent_z_array : idempotent z_array.
Proof. intros v v'. destruct v; simpl; intros [= <-]; done. Qed.

Lemma idempotent_z_optional ty : idempotent ty → idempotent (z_optional ty).
Proof.
  intros Hty v v' Hv.
  assert (v' = JUndefined ∨ ty v' = inr v') as [-> | Hre].
  { destruct v; simpl in Hv; first [ by left; injection Hv as <- | right; eauto ]. }
  - done.
  - destruct v'; simpl; done.
Qed.

Lemma idempotent_z_default_boolean b :
  idempotent (z_default (JBool b) z_boolean).
Proof. intros v v'. destruct v; simpl; intros [= <-]; done. Qed.

Lemma idempotent_shape_empty : idempotent_shape ∅.
Proof. intros k ty Hk. by rewrite lookup_empty in Hk. Qed.

Lemma idempotent_shape_insert k ty sh :
  idempotent ty → idempotent_shape sh → idempotent_shape (<[k := ty]> sh).
Proof.
  intros Hty Hsh k' ty'. rewrite lookup_insert. case_decide.
  - by intros [= <-].
  - apply Hsh.
Qed.

Create HintDb idempotent.

#[local] Hint Resolve idempotent_z_string idempotent_z_number
  idempotent_z_boolean idempotent_z_array idempotent_z_optional
  idempotent_z_default_boolean idempotent_shape_empty idempotent_shape_insert
  : idempotent.


Lemma sanitizer_projection_witness :
  @getStrictlyValidatedBodyForAws Fixture.imports Fixture.chat_request
  = inr (<["anthropic_version" := JStr "bedrock-2023-05-31"]>
         (<["messages" := Fixture.messages]>
         (<["temperature" := JNum (1 # 2)]> ∅)))
  ∧ (∀ out, @getStrictlyValidatedBodyForAws Fixture.imports Fixture.chat_request
            = inr out →
      out !! "foo" = None
      ∧ out !! "anthropic_version" = Some (JStr "bedrock-2023-05-31"))
  ∧ (∀ out, @getStrictlyValidatedBodyForAws Fixture.imports Fixture.text_request
            = inr out →
      out !! "anthropic_version" = None).
Proof.
  split; [vm_compute; reflexivity|]. split.
  - intros out Hout.
    destruct (@sanitizer_projection Fixture.imports _ _ Hout) as [_ Hchat].
    destruct (Hchat eq_refl) as (_ & Hversion & Hother).
    split; [|exact Hversion]. apply Hother; [|discriminate].
    refine (bool_decide_unpack _ _). vm_compute. exact I.
  - intros out Hout.
    destruct (@sanitizer_projection Fixture.imports _ _ Hout) as [Htext _].
    destruct (Htext eq_refl) as (_ & Hversion & _). exact Hversion.
Defined.



Lemma mistral_strict_validation_witness :
  ∃ issues,
    @getStrictlyValidatedBodyForAws Fixture.imports Fixture.mistral_request
    = inl (ZodError issues)
    ∧ (∃ i ks, i ∈ issues ∧ issue_code i = unrecognized_keys ks ∧ "foo" ∈ ks)
    ∧ (@signAwsRequest Fixture.imports Fixture.primitives Fixture.now
         Fixture.mistral_request Fixture.empty_world).2 = inl (ZodError issues).
Proof.
  assert (extraneous_field (@AWSMistralV1ChatCompletionsShape Fixture.imports)
            (body Fixture.mistral_request) "foo") as Hfoo.
  { split; refine (bool_decide_unpack _ _); vm_compute; exact I. }
  destruct (@mistral_strict_validation Fixture.imports Fixture.primitives
              Fixture.mistral_request
              (@AWSMistralV1ChatCompletionsShape Fixture.imports))
    as (issues & Hthrow & Hextra & _ & _ & Hrun).
  - left. split; reflexivity.
  - left. exists "foo". exact Hfoo.
  - exists issues. split; [exact Hthrow|]. split; [by apply Hextra|].
    destruct (Hrun Fixture.now Fixture.empty_world Fixture.the_key
                {| accessKeyId := "AKIAEXAMPLE"; secretAccessKey := "wJalrXUtnFEMI";
                   region := "us-east-1" |} eq_refl eq_refl) as (_ & Htext & _).
    eapply Htext. vm_compute. reflexivity.
Defined.

(** ** The signer *)

Lemma append_assoc a b c : (a +:+ b) +:+ c = a +:+ b +:+ c.
Proof. induction a as [|x a IH]; str_norm; [done | by rewrite IH]. Qed.








Section SignerProperties.

Context `{!SignerPrimitives}.




End SignerProperties.



(** * Further properties *)

(** ** Splitting and joining *)

Lemma concat_cons sep x y l :
  String.concat sep (x :: y :: l) = x +:+ sep +:+ String.concat sep (y :: l).
Proof. reflexivity. Qed.

Lemma split_cons_sep sep s :
  JsString.split sep (String sep s) = "" :: JsString.split sep s.
Proof. simpl. by rewrite Ascii.eqb_refl. Qed.

Lemma split_cons_other sep c s :
  c ≠ sep →
  ∃ seg rest, JsString.split sep s = seg :: rest
              ∧ JsString.split sep (String c s) = String c seg :: rest.
Proof.
  intros Hne. simpl. rewrite (proj2 (Ascii.eqb_neq c sep) Hne).
  destruct (JsString.split sep s) as [|seg rest] eqn:Hs; [|by eauto].
  destruct s; simpl in Hs; repeat case_match; discriminate.
Qed.

Lemma split_concat sep s :
  String.concat (String sep "") (JsString.split sep s) = s.
Proof.
  induction s as [|c s IH]; [done|].
  destruct (decide (c = sep)) as [->|Hne].
  - rewrite split_cons_sep.
    destruct (JsString.split sep s) as [|seg rest] eqn:Hs.
    + destruct s; simpl in Hs; repeat case_match; discriminate.
    + rewrite concat_cons, IH. reflexivity.
  - destruct (split_cons_other sep c s Hne) as (seg & rest & Hs & ->).
    rewrite Hs in IH. destruct rest as [|y rest].
    + simpl in *. by rewrite IH.
    + rewrite concat_cons in *. str_norm. by rewrite IH.
Qed.

Lemma split_segments sep s :
  Forall (λ seg, JsString.has_char sep seg = false) (JsString.split sep s).
Proof.
  induction s as [|c s IH]; [by repeat constructor|].
  destruct (decide (c = sep)) as [->|Hne].
  - rewrite split_cons_sep. by constructor.
  - destruct (split_cons_other sep c s Hne) as (seg & rest & Hs & ->).
    rewrite Hs in IH. inversion IH as [|? ? Hseg Hrest]; subst.
    constructor; [|done]. simpl. rewrite Hseg.
    by rewrite (proj2 (Ascii.eqb_neq c sep) Hne).
Qed.

Lemma split_length sep s :
  length (JsString.split sep s) = S (count_char sep s).
Proof.
  induction s as [|c s IH]; [done|].
  destruct (decide (c = sep)) as [->|Hne].
  - rewrite split_cons_sep. simpl. by rewrite Ascii.eqb_refl, IH.
  - destruct (split_cons_other sep c s Hne) as (seg & rest & Hs & ->).
    rewrite Hs in IH. simpl in *. by rewrite (proj2 (Ascii.eqb_neq c sep) Hne), IH.
Qed.

Lemma concat_split sep l :
  l ≠ [] →
  Forall (λ seg, JsString.has_char sep seg = false) l →
  JsString.split sep (String.concat (String sep "") l) = l.
Proof.
  intros Hl Hall. induction Hall as [|x l Hx Hall IH]; [done|].
  destruct l as [|y l].
  - simpl. by apply split_no_sep.
  - rewrite concat_cons. str_norm. rewrite split_app by done. by rewrite IH.
Qed.

(** X1. Splitting a string at a separator and joining the segments with it
    gives the string back; the segments do not contain the separator and
    there is one more of them than there are separators; and a non-empty
    list of separator-free segments is what its join splits into. *)
Theorem split_join_round_trip (sep : ascii) :
  (∀ s, String.concat (String sep "") (JsString.split sep s) = s
        ∧ Forall (λ seg, JsString.has_char sep seg = false) (JsString.split sep s)
        ∧ length (JsString.split sep s) = S (count_char sep s))
  ∧ (∀ l, l ≠ [] →
          Forall (λ seg, JsString.has_char sep seg = false) l →
          JsString.split sep (String.concat (String sep "") l) = l).
Proof.
  split.
  - intros s. split; [apply split_concat|]. split; [apply split_segments|].
    apply split_length.
  - apply concat_split.
Qed.

Lemma split_join_round_trip_witness :
  JsString.split ":" (String.concat ":" ["AKIA"; ""; "eu-west-1"])
  = ["AKIA"; ""; "eu-west-1"]
  ∧ String.concat ":" (JsString.split ":" ":a::b:") = ":a::b:".
Proof.
  destruct (split_join_round_trip ":") as [Hsplit Hjoin]. split.
  - apply Hjoin; [discriminate|]. repeat constructor.
  - apply (Hsplit ":a::b:").
Defined.

(** ** Credential extraction, exactly *)

Lemma getCredentialParts_returns k c :
  getCredentialParts k = ([], inr c) ↔ (getCredentialParts k).2 = inr c.
Proof.
  split; [by intros -> | apply getCredentialParts_ok_log].
Qed.

(** X2. The extraction returns a credential exactly when the secret is
    [AK:SK:region], possibly followed by a colon and anything, with three
    non-empty parts that contain no colon; the credential is then made of
    these parts and nothing is logged. *)
Theorem getCredentialParts_exact (k : AwsBedrockKey) (c : Credential) :
  getCredentialParts k = ([], inr c) ↔
  (accessKeyId c ≠ "" ∧ secretAccessKey c ≠ "" ∧ region c ≠ "")
  ∧ (JsString.has_char ":" (accessKeyId c) = false
     ∧ JsString.has_char ":" (secretAccessKey c) = false
     ∧ JsString.has_char ":" (region c) = false)
  ∧ (key k = accessKeyId c +:+ ":" +:+ secretAccessKey c +:+ ":" +:+ region c
     ∨ ∃ extra,
         key k = accessKeyId c +:+ ":" +:+ secretAccessKey c +:+ ":"
                 +:+ region c +:+ ":" +:+ extra).
Proof.
  rewrite getCredentialParts_returns. split.
  - intros (rest & Hs & Hne)%getCredentialParts_ok. split; [exact Hne|].
    pose proof (split_segments ":" (key k)) as Hfree. rewrite Hs in Hfree.
    inversion Hfree as [|? ? Ha Hfree1]; subst.
    inversion Hfree1 as [|? ? Hb Hfree2]; subst.
    inversion Hfree2 as [|? ? Hr _]; subst.
    split; [done|].
    pose proof (split_concat ":" (key k)) as Hjoin. rewrite Hs in Hjoin.
    rewrite <- Hjoin. destruct rest as [|y rest].
    + left. reflexivity.
    + right. exists (String.concat ":" (y :: rest)). reflexivity.
  - intros (Hne & (Ha & Hb & Hr) & Hkey). destruct Hne as (Hna & Hnb & Hnr).
    destruct c as [a b r]. simpl in *.
    destruct Hkey as [Hkey | [extra Hkey]].
    + rewrite (getCredentialParts_prefix k a b r []); [done| |done..].
      rewrite Hkey. by apply split_triple.
    + rewrite (getCredentialParts_prefix k a b r (JsString.split ":" extra));
        [done| |done..].
      rewrite Hkey. by apply split_triple_extra.
Qed.

Lemma getCredentialParts_exact_witness :
  key Cases.long_key
  = "AKIAEXAMPLE" +:+ ":" +:+ "wJalrXUtnFEMI" +:+ ":" +:+ "eu-west-1" +:+ ":"
    +:+ "extra:parts"
  ∧ getCredentialParts Cases.long_key
    = ([], inr {| accessKeyId := "AKIAEXAMPLE"; secretAccessKey := "wJalrXUtnFEMI";
                  region := "eu-west-1" |}).
Proof.
  split; [reflexivity|].
  apply (getCredentialParts_exact Cases.long_key
           {| accessKeyId := "AKIAEXAMPLE"; secretAccessKey := "wJalrXUtnFEMI";
              region := "eu-west-1" |}).
  split; [repeat split; discriminate|]. split; [repeat split; reflexivity|].
  right. exists "extra:parts". reflexivity.
Defined.

Lemma getCredentialParts_rejects k :
  (∀ a b r rest,
     JsString.split ":" (key k) = a :: b :: r :: rest →
     a = "" ∨ b = "" ∨ r = "") →
  getCredentialParts k = ([invalid_key_report (hash k)], inl invalid_key_error).
Proof.
  intros Hbad. destruct (getCredentialParts_cases k) as [[c Hc] | He]; [|done].
  apply getCredentialParts_returns, getCredentialParts_ok in Hc
    as (rest & Hs & Ha & Hb & Hr).
  destruct (Hbad _ _ _ _ Hs) as [? | [? | ?]]; done.
Qed.

(** X3. Secrets that are rejected, each with the one report and the
    invalid-key error: a secret with fewer than two colons (the empty secret
    among them), a secret that starts with a colon, a secret whose second
    part is empty, and a secret whose third part is empty, be it the end of
    the secret or followed by a further colon. *)
Theorem malformed_secrets_rejected (k : AwsBedrockKey) :
  (count_char ":" (key k) < 2)%nat
  ∨ (∃ rest, key k = ":" +:+ rest)
  ∨ (∃ AK rest,
       JsString.has_char ":" AK = false ∧ key k = AK +:+ "::" +:+ rest)
  ∨ (∃ AK SK,
       JsString.has_char ":" AK = false ∧ JsString.has_char ":" SK = false
       ∧ key k = AK +:+ ":" +:+ SK +:+ ":")
  ∨ (∃ AK SK rest,
       JsString.has_char ":" AK = false ∧ JsString.has_char ":" SK = false
       ∧ key k = AK +:+ ":" +:+ SK +:+ "::" +:+ rest) →
  getCredentialParts k = ([invalid_key_report (hash k)], inl invalid_key_error).
Proof.
  intros Hbad. apply getCredentialParts_rejects. intros a b r rest Hs.
  destruct Hbad as [Hfew | [[tl Hk] | [(AK & tl & HA & Hk)
                   | [(AK & SK & HA & HS & Hk) | (AK & SK & tl & HA & HS & Hk)]]]].
  - pose proof (split_length ":" (key k)) as Hlen. rewrite Hs in Hlen.
    simpl in Hlen. lia.
  - rewrite Hk in Hs. rewrite append_cons, append_nil_l, split_cons_sep in Hs.
    left. congruence.
  - rewrite Hk in Hs. rewrite !append_cons, append_nil_l in Hs.
    rewrite split_app, split_cons_sep in Hs by done.
    right; left. congruence.
  - rewrite Hk in Hs. rewrite !append_cons, !append_nil_l in Hs.
    rewrite !split_app in Hs by done. simpl in Hs.
    right; right. congruence.
  - rewrite Hk in Hs. rewrite !append_cons, !append_nil_l in Hs.
    rewrite !split_app, split_cons_sep in Hs by done.
    right; right. congruence.
Qed.

Lemma malformed_secrets_rejected_witness :
  getCredentialParts Fixture.bad_key
  = ([invalid_key_report "aws-77b0de"], inl invalid_key_error)
  ∧ getCredentialParts {| key := "AKIA::eu-west-1:x"; hash := "h";
                          inferenceProfileIds := [] |}
    = ([invalid_key_report "h"], inl invalid_key_error)
  ∧ getCredentialParts {| key := ""; hash := "h"; inferenceProfileIds := [] |}
    = ([invalid_key_report "h"], inl invalid_key_error).
Proof.
  split; [|split].
  - apply (malformed_secrets_rejected Fixture.bad_key). left. vm_compute. lia.
  - apply (malformed_secrets_rejected
             {| key := "AKIA::eu-west-1:x"; hash := "h"; inferenceProfileIds := [] |}).
    right; right; left. exists "AKIA", "eu-west-1:x". split; reflexivity.
  - apply (malformed_secrets_rejected
             {| key := ""; hash := "h"; inferenceProfileIds := [] |}).
    left. vm_compute. lia.
Defined.

(** ** The run of the mutator *)

Section Run.

Context `{!Imports, !SignerPrimitives}.

Lemma resource_identifier_inr k model profile id :
  resource_identifier k model = inr (profile, id)
  ↔ selectProfile k model = inr profile ∧ ToString profile = inr id.
Proof.
  unfold resource_identifier.
  destruct (selectProfile k model) as [e|profile']; simpl.
  { split; [intros [=] | intros [[=] _]]. }
  destruct (ToString profile') as [e|id'] eqn:Ht.
  - split; [intros [=]|]. intros [[= ->] Ht']. rewrite Ht in Ht'. discriminate.
  - split.
    + intros [= -> ->]. done.
    + intros [[= ->] Ht']. rewrite Ht in Ht'. by injection Ht' as ->.
Qed.

Lemma resource_identifier_inl k model e :
  resource_identifier k model = inl e ↔ ToString model = inl e.
Proof.
  split; [|apply resource_identifier_throws].
  intros Hid. destruct (ToString model) as [e'|text] eqn:Ht.
  - rewrite (resource_identifier_throws k _ _ Ht) in Hid. by injection Hid as ->.
  - destruct (resource_identifier_text k _ _ Ht) as (profile & id & Hid').
    rewrite Hid' in Hid. done.
Qed.

(** X4. A run of the mutator ends in one of five ways, in this order of
    precedence: the key pool throws and nothing has changed; the assigned
    key is malformed, which is reported and thrown with only the key set;
    the model of the body has no text (an object with a property named
    toString, or an array that holds one), and the TypeError of its
    conversion is thrown with the key and the anthropic-version header set
    and nothing logged; the body is rejected, which is thrown with the key
    and the header set and nothing logged; or the request is built, the
    assignment is logged and the signed request is handed over. *)
Theorem signAwsRequest_outcomes (longDate : string) (req : Request) (w : World) :
  (∃ e,
     keyPool_get (prop (body req) "model") "aws" = inl e
     ∧ signAwsRequest longDate req w = (w, inl e))
  ∨ (∃ k,
       keyPool_get (prop (body req) "model") "aws" = inr k
       ∧ threw (getCredentialParts k).2
       ∧ signAwsRequest longDate req w
         = ({| log := log w ++ [invalid_key_report (hash k)];
               manager_key := Some k;
               manager_headers := manager_headers w;
               signedRequest := signedRequest w |}, inl invalid_key_error))
  ∨ (∃ k c e,
       keyPool_get (prop (body req) "model") "aws" = inr k
       ∧ getCredentialParts k = ([], inr c)
       ∧ ToString (prop (body req) "model") = inl e
       ∧ e = TypeError "Cannot convert object to primitive value"
       ∧ signAwsRequest longDate req w
         = ({| log := log w;
               manager_key := Some k;
               manager_headers :=
                 <["anthropic-version" := "2023-06-01"]> (manager_headers w);
               signedRequest := signedRequest w |}, inl e))
  ∨ (∃ k c profile id e,
       keyPool_get (prop (body req) "model") "aws" = inr k
       ∧ getCredentialParts k = ([], inr c)
       ∧ selectProfile k (prop (body req) "model") = inr profile
       ∧ ToString profile = inr id
       ∧ getStrictlyValidatedBodyForAws req = inl e
       ∧ signAwsRequest longDate req w
         = ({| log := log w;
               manager_key := Some k;
               manager_headers :=
                 <["anthropic-version" := "2023-06-01"]> (manager_headers w);
               signedRequest := signedRequest w |}, inl e))
  ∨ (∃ k c profile id params,
       keyPool_get (prop (body req) "model") "aws" = inr k
       ∧ getCredentialParts k = ([], inr c)
       ∧ selectProfile k (prop (body req) "model") = inr profile
       ∧ ToString profile = inr id
       ∧ getStrictlyValidatedBodyForAws req = inr params
       ∧ signAwsRequest longDate req w
         = ({| log := log w ++ [assigned_report req k profile];
               manager_key := Some k;
               manager_headers :=
                 <["anthropic-version" := "2023-06-01"]> (manager_headers w);
               signedRequest :=
                 Some (sign longDate (built_request req c id params) c) |},
            inr tt)).
Proof.
  destruct (keyPool_get (prop (body req) "model") "aws") as [e|k] eqn:Hk.
  { left. exists e. split; [done|]. by apply signAwsRequest_no_key. }
  right. destruct (getCredentialParts_cases k) as [[c Hc] | Hc].
  2:{ left. exists k. split; [done|]. split; [rewrite Hc; by eexists|].
      by apply signAwsRequest_bad_key. }
  right.
  destruct (resource_identifier k (prop (body req) "model"))
    as [e|[profile id]] eqn:Hid.
  { left. exists k, c, e. split; [done|]. split; [done|].
    pose proof (proj1 (resource_identifier_inl k _ _) Hid) as Ht.
    split; [exact Ht|]. split; [by apply ToString_TypeError in Ht|].
    by apply signAwsRequest_bad_model with (c := c). }
  right. pose proof (proj1 (resource_identifier_inr _ _ _ _) Hid) as [Hsel Ht].
  destruct (getStrictlyValidatedBodyForAws req) as [e|params] eqn:Hb.
  - left. exists k, c, profile, id, e. repeat split; try done.
    by apply signAwsRequest_bad_body with (c := c) (profile := profile) (id := id).
  - right. exists k, c, profile, id, params. repeat split; try done.
    by apply signAwsRequest_signed.
Qed.

(** X5. What a run never does: it appends at most one entry to the log and
    removes none; it touches no header of the manager but anthropic-version;
    unless it returns, the signed request of the manager is left as it was;
    and when it returns, a signed request, the key and the anthropic-version
    header are set. *)
Theorem signAwsRequest_frame (longDate : string) (req : Request) (w : World) :
  (∃ entries,
     log (signAwsRequest longDate req w).1 = log w ++ entries
     ∧ (length entries ≤ 1)%nat)
  ∧ (∀ name, name ≠ "anthropic-version" →
       manager_headers (signAwsRequest longDate req w).1 !! name
       = manager_headers w !! name)
  ∧ ((signAwsRequest longDate req w).2 ≠ inr tt →
       signedRequest (signAwsRequest longDate req w).1 = signedRequest w)
  ∧ ((signAwsRequest longDate req w).2 = inr tt →
       is_Some (signedRequest (signAwsRequest longDate req w).1)
       ∧ is_Some (manager_key (signAwsRequest longDate req w).1)
       ∧ manager_headers (signAwsRequest longDate req w).1 !! "anthropic-version"
         = Some "2023-06-01").
Proof.
  assert ((∃ e, signAwsRequest longDate req w = (w, inl e))
          ∨ (∃ k, signAwsRequest longDate req w
               = ({| log := log w ++ [invalid_key_report (hash k)];
                     manager_key := Some k;
                     manager_headers := manager_headers w;
                     signedRequest := signedRequest w |}, inl invalid_key_error))
          ∨ (∃ k e, signAwsRequest longDate req w
               = ({| log := log w;
                     manager_key := Some k;
                     manager_headers :=
                       <["anthropic-version" := "2023-06-01"]> (manager_headers w);
                     signedRequest := signedRequest w |}, inl e))
          ∨ (∃ k profile r, signAwsRequest longDate req w
               = ({| log := log w ++ [assigned_report req k profile];
                     manager_key := Some k;
                     manager_headers :=
                       <["anthropic-version" := "2023-06-01"]> (manager_headers w);
                     signedRequest := Some r |}, inr tt)))
    as [[e ->] | [[k ->] | [(k & e & ->) | (k & profile & r & ->)]]].
  { destruct (keyPool_get (prop (body req) "model") "aws") as [e|k] eqn:Hk.
    { left. exists e. by apply signAwsRequest_no_key. }
    right. destruct (getCredentialParts_cases k) as [[c Hc] | Hc].
    2:{ left. exists k. by apply signAwsRequest_bad_key. }
    right.
    destruct (resource_identifier k (prop (body req) "model"))
      as [e|[profile id]] eqn:Hid.
    { left. exists k, e. by apply signAwsRequest_bad_model with (c := c). }
    destruct (getStrictlyValidatedBodyForAws req) as [e|params] eqn:Hb.
    - left. exists k, e.
      by apply signAwsRequest_bad_body with (c := c) (profile := profile) (id := id).
    - right. eexists k, profile, _. by apply signAwsRequest_signed. }
  all: simpl.
  - split; [exists []; split; [by rewrite app_nil_r | simpl; lia]|].
    split; [done|]. split; [done | intros [=]].
  - split; [eexists; split; [done | simpl; lia]|].
    split; [done|]. split; [done | intros [=]].
  - split; [exists []; split; [by rewrite app_nil_r | simpl; lia]|].
    split; [intros name Hne; by rewrite lookup_insert_ne|].
    split; [done | intros [=]].
  - split; [eexists; split; [done | simpl; lia]|].
    split; [intros name Hne; by rewrite lookup_insert_ne|].
    split; [done|]. intros _. split; [by eexists|]. split; [by eexists|].
    apply lookup_insert_eq.
Qed.

End Run.

Lemma signAwsRequest_outcomes_witness :
  @signAwsRequest Cases.imports_no_key Fixture.primitives Fixture.now
    Fixture.stream_request Fixture.empty_world
  = (Fixture.empty_world, inl (KeyPoolError "No keys available"))
  ∧ @signAwsRequest Fixture.imports Fixture.primitives Fixture.now
      Cases.object_model_request Fixture.empty_world
    = ({| log := [];
          manager_key := Some Fixture.the_key;
          manager_headers := {[ "anthropic-version" := "2023-06-01" ]};
          signedRequest := None |},
       inl (TypeError "Cannot convert object to primitive value")).
Proof.
  split.
  - destruct (@signAwsRequest_outcomes Cases.imports_no_key Fixture.primitives
                Fixture.now Fixture.stream_request Fixture.empty_world)
      as [(e & He & Hrun) | [(k & Hk & _) | [(k & c & e & Hk & _)
         | [(k & c & profile & id & e & Hk & _)
           | (k & c & profile & id & params & Hk & _)]]]].
    + rewrite Hrun. injection He as <-. reflexivity.
    + discriminate Hk.
    + discriminate Hk.
    + discriminate Hk.
    + discriminate Hk.
  - destruct (@signAwsRequest_outcomes Fixture.imports Fixture.primitives
                Fixture.now Cases.object_model_request Fixture.empty_world)
      as [(e & He & _) | [(k & Hk & (e & He) & _)
         | [(k & c & e & Hk & _ & _ & He & Hrun)
         | [(k & c & profile & id & e & Hk & _ & Hsel & _)
           | (k & c & profile & id & params & Hk & _ & Hsel & _)]]]].
    + discriminate He.
    + injection Hk as <-. vm_compute in He. discriminate He.
    + rewrite Hrun, He. injection Hk as <-. reflexivity.
    + injection Hk as <-. vm_compute in Hsel. discriminate Hsel.
    + injection Hk as <-. vm_compute in Hsel. discriminate Hsel.
Defined.

(** ** The secret and the log *)

Lemma resource_identifier_profiles `{!Imports} k k' model :
  inferenceProfileIds k = inferenceProfileIds k' →
  resource_identifier k model = resource_identifier k' model.
Proof. intros Hp. unfold resource_identifier, selectProfile. by rewrite Hp. Qed.

Lemma assigned_report_key `{!Imports} req k k' profile :
  hash k = hash k' →
  assigned_report req k profile = assigned_report req k' profile.
Proof. intros Hh. unfold assigned_report. by rewrite Hh. Qed.

(** X6. The log, the thrown error and the manager's headers of a run do not
    depend on the secret of the assigned key: two pools that assign keys
    with the same hash and the same inference profiles, both well formed or
    both malformed, give runs that agree on all three, whatever the two
    secrets are. *)
Theorem secret_not_observable (I : Imports) (P : SignerPrimitives)
    (pool' : jsval → string → exn + AwsBedrockKey)
    (longDate : string) (req : Request) (w : World) (k k' : AwsBedrockKey) :
  @keyPool_get I (prop (body req) "model") "aws" = inr k →
  pool' (prop (body req) "model") "aws" = inr k' →
  hash k = hash k' →
  inferenceProfileIds k = inferenceProfileIds k' →
  (threw (getCredentialParts k).2 ↔ threw (getCredentialParts k').2) →
  log (@signAwsRequest I P longDate req w).1
  = log (@signAwsRequest (with_pool I pool') P longDate req w).1
  ∧ (@signAwsRequest I P longDate req w).2
    = (@signAwsRequest (with_pool I pool') P longDate req w).2
  ∧ manager_headers (@signAwsRequest I P longDate req w).1
    = manager_headers (@signAwsRequest (with_pool I pool') P longDate req w).1.
Proof.
  intros Hk Hk' Hh Hp Hboth.
  assert (@keyPool_get (with_pool I pool') (prop (body req) "model") "aws" = inr k')
    as Hk2 by exact Hk'.
  destruct (getCredentialParts_cases k) as [[c Hc] | Hc],
           (getCredentialParts_cases k') as [[c' Hc'] | Hc'].
  - pose proof (@resource_identifier_profiles I k k' (prop (body req) "model") Hp)
      as Hsame.
    destruct (@resource_identifier I k (prop (body req) "model"))
      as [e|[profile id]] eqn:Hid; symmetry in Hsame.
    { rewrite (@signAwsRequest_bad_model I P _ _ _ _ _ _ Hk Hc Hid).
      rewrite (@signAwsRequest_bad_model (with_pool I pool') P _ _ _ _ _ _
                 Hk2 Hc' Hsame).
      done. }
    destruct (@getStrictlyValidatedBodyForAws I req) as [e|params] eqn:Hb.
    + rewrite (@signAwsRequest_bad_body I P _ _ _ _ _ _ _ _ Hk Hc Hid Hb).
      rewrite (@signAwsRequest_bad_body (with_pool I pool') P _ _ _ _ _ _ _ _
                 Hk2 Hc' Hsame Hb).
      done.
    + rewrite (@signAwsRequest_signed I P _ _ _ _ _ _ _ _ Hk Hc Hid Hb).
      rewrite (@signAwsRequest_signed (with_pool I pool') P _ _ _ _ _ _ _ _
                 Hk2 Hc' Hsame Hb).
      simpl. split; [|done].
      f_equal. f_equal. apply (@assigned_report_key I); done.
  - exfalso. rewrite Hc, Hc' in Hboth. simpl in Hboth.
    destruct (proj2 Hboth) as [e He]; [by eexists | discriminate He].
  - exfalso. rewrite Hc, Hc' in Hboth. simpl in Hboth.
    destruct (proj1 Hboth) as [e He]; [by eexists | discriminate He].
  - rewrite (@signAwsRequest_bad_key I P _ _ _ _ Hk Hc).
    rewrite (@signAwsRequest_bad_key (with_pool I pool') P _ _ _ _ Hk2 Hc').
    simpl. by rewrite Hh.
Qed.

Lemma secret_not_observable_witness :
  log (@signAwsRequest Fixture.imports Fixture.primitives Fixture.now
         Fixture.stream_request Fixture.empty_world).1
  = log (@signAwsRequest
           (with_pool Fixture.imports (λ _ _, inr Cases.rotated_key))
           Fixture.primitives Fixture.now
           Fixture.stream_request Fixture.empty_world).1.
Proof.
  apply (secret_not_observable Fixture.imports Fixture.primitives
           (λ _ _, inr Cases.rotated_key) Fixture.now Fixture.stream_request
           Fixture.empty_world Fixture.the_key Cases.rotated_key);
    try reflexivity.
  split; intros [e He]; vm_compute in He; discriminate He.
Defined.

(** ** The chosen identifier *)

Lemma find_Some_split {A} (f : A → bool) (l : list A) (p : A) :
  List.find f l = Some p →
  ∃ pre post, l = pre ++ p :: post ∧ f p = true ∧ ∀ q, q ∈ pre → f q = false.
Proof.
  induction l as [|x l IH]; simpl; [done|].
  destruct (f x) eqn:Hx.
  - intros [= ->]. exists [], l. split; [done|]. split; [done|].
    intros q Hq. inversion Hq.
  - intros (pre & post & -> & Hp & Hpre)%IH. exists (x :: pre), post.
    split; [done|]. split; [done|].
    intros q [-> | Hq]%elem_of_cons; [done | by apply Hpre].
Qed.

Lemma contains_refl s : contains s s.
Proof.
  exists "", "". rewrite append_nil_l.
  induction s as [|c s IH]; [done|]. rewrite append_cons. by rewrite <- IH.
Qed.

Lemma contains_trans a b c : contains a b → contains b c → contains a c.
Proof.
  intros (b1 & a1 & ->) (b2 & a2 & ->). exists (b1 +:+ b2), (a2 +:+ a1).
  by rewrite !append_assoc.
Qed.

(** X7. For a string model the chosen identifier contains the model id, is
    one of the key's inference profiles or the model id itself, and is
    stable: choosing again with the chosen identifier as the model id
    returns it. *)
Theorem selectProfile_stable `{!Imports} (k : AwsBedrockKey) (model : string) :
  ∃ id,
    selectProfile k (JStr model) = inr (JStr id)
    ∧ contains id model
    ∧ (id ∈ inferenceProfileIds k ∨ id = model)
    ∧ selectProfile k (JStr id) = inr (JStr id).
Proof.
  rewrite (selectProfile_text _ _ model) by done.
  destruct (List.find _ _) as [p|] eqn:Hfind.
  - pose proof Hfind as (pre & post & Hl & Hp & Hpre)%find_Some_split.
    apply includes_spec in Hp. fold (contains p model) in Hp.
    destruct p as [|c p]; simpl.
    + pose proof (contains_empty _ Hp) as ->. exists "".
      split; [done|]. split; [apply contains_refl|]. split; [by right|].
      rewrite (selectProfile_text _ _ "") by done. by rewrite Hfind.
    + exists (String c p). split; [done|]. split; [exact Hp|]. split.
      * left. rewrite Hl. apply elem_of_app. right. by left.
      * apply selectProfile_match with (pre := pre) (post := post);
          [done | apply contains_refl |].
        intros q Hq Hqp. specialize (Hpre q Hq).
        pose proof (contains_trans _ _ _ Hqp Hp) as Hqm.
        apply includes_spec in Hqm. congruence.
  - exists model. split; [done|]. split; [apply contains_refl|]. split; [by right|].
    rewrite (selectProfile_text _ _ model) by done. by rewrite Hfind.
Qed.

Lemma selectProfile_stable_witness :
  ∃ id,
    @selectProfile Fixture.imports Cases.long_key (JStr "foo") = inr (JStr id)
    ∧ contains id "foo"
    ∧ (id ∈ inferenceProfileIds Cases.long_key ∨ id = "foo")
    ∧ @selectProfile Fixture.imports Cases.long_key (JStr id) = inr (JStr id).
Proof.
  apply (@selectProfile_stable Fixture.imports Cases.long_key "foo").
Defined.

(** ** The host *)

Lemma GetSubstitution_plain matched before after template :
  JsString.has_char "$" template = false →
  JsString.GetSubstitution matched before after template = template.
Proof.
  induction template as [|c r IH]; simpl; [done|].
  intros [Hc Hr]%orb_false_iff. rewrite Hc, (IH Hr). done.
Qed.

Lemma drop_append a b : JsString.drop (String.length a) (a +:+ b) = b.
Proof. induction a as [|c a IH]; [done|]. rewrite append_cons. simpl. exact IH. Qed.

Lemma startsWith_append a b : JsString.startsWith a (a +:+ b) = true.
Proof. apply startsWith_spec. by exists b. Qed.

Lemma find_first_here p0 pat before after :
  JsString.has_char p0 before = false →
  JsString.find_first (String p0 pat) (before +:+ String p0 pat +:+ after)
  = Some (before, after).
Proof.
  intros Hfree. induction before as [|c before IH].
  - rewrite append_nil_l.
    change (JsString.find_first (String p0 pat) (String p0 pat +:+ after))
      with (if JsString.startsWith (String p0 pat) (String p0 pat +:+ after)
            then Some ("", JsString.drop (String.length (String p0 pat))
                             (String p0 pat +:+ after))
            else match String p0 pat +:+ after with
                 | "" => None
                 | String c s' =>
                     match JsString.find_first (String p0 pat) s' with
                     | Some (before, after) => Some (String c before, after)
                     | None => None
                     end
                 end).
    by rewrite startsWith_append, drop_append.
  - simpl in Hfree. apply orb_false_iff in Hfree as [Hc Hfree].
    rewrite append_cons. simpl. rewrite Ascii.eqb_sym, Hc.
    by rewrite (IH Hfree).
Qed.

Lemma find_first_sound pat s before after :
  JsString.find_first pat s = Some (before, after) →
  s = before +:+ pat +:+ after.
Proof.
  revert before. induction s as [|c s IH]; intros before.
  - simpl. destruct pat; simpl; [|done]. by intros [= <- <-].
  - change (JsString.find_first pat (String c s))
      with (if JsString.startsWith pat (String c s)
            then Some ("", JsString.drop (String.length pat) (String c s))
            else match JsString.find_first pat s with
                 | Some (before, after) => Some (String c before, after)
                 | None => None
                 end).
    destruct (JsString.startsWith pat (String c s)) eqn:Hstart.
    + apply startsWith_spec in Hstart as [rest Hrest].
      intros [= <- <-]. rewrite Hrest, drop_append. reflexivity.
    + destruct (JsString.find_first pat s) as [[b a]|]; [|done].
      intros [= <- <-]. rewrite append_cons. f_equal. by apply IH.
Qed.

Lemma find_first_none pat s :
  ¬ contains s pat → JsString.find_first pat s = None.
Proof.
  intros Hno. destruct (JsString.find_first pat s) as [[b a]|] eqn:Hfind; [|done].
  destruct Hno. exists b, a. by apply find_first_sound.
Qed.

(** X8. The host. Without a template in the environment (or with an empty
    one) and a region free of dollar signs the host is
    [bedrock-runtime.<region>.amazonaws.com]; with a template that holds the
    placeholder after a text free of percent signs, the region takes the
    place of that placeholder; a template without the placeholder is the
    host whatever the region is; and the region [$&] puts the placeholder
    back, so the template itself is the host. *)
Theorem host_substitution `{!Imports} :
  (∀ region,
     env_AMZ_HOST = None ∨ env_AMZ_HOST = Some "" →
     JsString.has_char "$" region = false →
     JsString.replace AMZ_HOST "%REGION%" region
     = "bedrock-runtime." +:+ region +:+ ".amazonaws.com")
  ∧ (∀ region before after,
       env_AMZ_HOST = Some (before +:+ "%REGION%" +:+ after) →
       JsString.has_char "%" before = false →
       JsString.has_char "$" region = false →
       JsString.replace AMZ_HOST "%REGION%" region = before +:+ region +:+ after)
  ∧ (∀ region template,
       env_AMZ_HOST = Some template → template ≠ "" →
       ¬ contains template "%REGION%" →
       JsString.replace AMZ_HOST "%REGION%" region = template)
  ∧ JsString.replace AMZ_HOST "%REGION%" "$&" = AMZ_HOST.
Proof.
  assert (∀ region before after,
            JsString.has_char "%" before = false →
            JsString.has_char "$" region = false →
            JsString.replace (before +:+ "%REGION%" +:+ after) "%REGION%" region
            = before +:+ region +:+ after) as Hsubst.
  { intros region before after Hb Hr. unfold JsString.replace.
    rewrite (find_first_here "%" "REGION%" before after Hb).
    by rewrite GetSubstitution_plain. }
  split; [|split; [|split]].
  - intros region Henv Hr.
    assert (AMZ_HOST = "bedrock-runtime." +:+ "%REGION%" +:+ ".amazonaws.com") as ->.
    { unfold AMZ_HOST. by destruct Henv as [-> | ->]. }
    by apply Hsubst.
  - intros region before after Henv Hb Hr.
    assert (AMZ_HOST = before +:+ "%REGION%" +:+ after) as ->.
    { unfold AMZ_HOST, HttpRequest.or_else. rewrite Henv. simpl.
      destruct (String.eqb_spec (before +:+ "%REGION%" +:+ after) "") as [Hempty|];
        [|done].
      destruct before; discriminate Hempty. }
    by apply Hsubst.
  - intros region template Henv Hne Hno.
    assert (AMZ_HOST = template) as ->.
    { unfold AMZ_HOST, HttpRequest.or_else. rewrite Henv. simpl.
      by destruct (String.eqb_spec template ""). }
    unfold JsString.replace. by rewrite find_first_none.
  - unfold JsString.replace.
    destruct (JsString.find_first "%REGION%" AMZ_HOST) as [[b a]|] eqn:Hfind; [|done].
    apply find_first_sound in Hfind. rewrite Hfind. reflexivity.
Qed.

Lemma host_substitution_witness :
  JsString.replace (@AMZ_HOST Fixture.imports) "%REGION%" "eu-west-1"
  = "bedrock-runtime.eu-west-1.amazonaws.com"
  ∧ JsString.replace (@AMZ_HOST (Cases.imports_with_host "https://proxy/%REGION%/x"))
      "%REGION%" "eu-west-1" = "https://proxy/eu-west-1/x"
  ∧ JsString.replace (@AMZ_HOST (Cases.imports_with_host "bedrock.internal"))
      "%REGION%" "eu-west-1" = "bedrock.internal".
Proof.
  split; [|split].
  - destruct (@host_substitution Fixture.imports) as (Hdefault & _).
    apply (Hdefault "eu-west-1"); [by left | reflexivity].
  - destruct (@host_substitution (Cases.imports_with_host "https://proxy/%REGION%/x"))
      as (_ & Htemplate & _).
    apply (Htemplate "eu-west-1" "https://proxy/" "/x"); reflexivity.
  - destruct (@host_substitution (Cases.imports_with_host "bedrock.internal"))
      as (_ & _ & Hplain & _).
    apply (Hplain "eu-west-1" "bedrock.internal"); [reflexivity | discriminate |].
    intros Hc%includes_spec. vm_compute in Hc. discriminate Hc.
Defined.

(** ** The projection of the two anthropic bodies *)

(** A stripping schema sees of the data what its own fields hold. *)
Lemma parse_strip_agree schema (d1 d2 : gmap string jsval) :
  unknownKeys schema = uk_strip →
  (∀ k, k ∈ dom (shape schema) → d1 !! k = d2 !! k) →
  parse schema d1 = parse schema d2.
Proof.
  intros Hstrip Hagree.
  assert (∀ k ty, shape schema !! k = Some ty →
            prop d1 k = prop d2 k
            ∧ bool_decide (k ∉ dom d1) = bool_decide (k ∉ dom d2)) as Hfield.
  { intros k ty Hk.
    assert (d1 !! k = d2 !! k) as Heq by (apply Hagree, elem_of_dom; eauto).
    split; [unfold prop; by rewrite Heq|].
    apply bool_decide_ext. by rewrite !not_elem_of_dom, Heq. }
  assert (valid schema d1 = valid schema d2) as Hvalid.
  { destruct (valid schema d1) eqn:H1, (valid schema d2) eqn:H2; try done.
    - apply valid_spec in H1 as [Hf _]. rewrite <- H2. symmetry.
      apply valid_spec. split; [|by rewrite Hstrip].
      intros k ty Hk. destruct (Hfield k ty Hk) as [<- _]. eauto.
    - apply valid_spec in H2 as [Hf _]. rewrite <- H1.
      apply valid_spec. split; [|by rewrite Hstrip].
      intros k ty Hk. destruct (Hfield k ty Hk) as [-> _]. eauto. }
  assert (parsed_object schema d1 = parsed_object schema d2) as Hobj.
  { apply map_eq. intros k. rewrite !parsed_object_lookup by by rewrite Hstrip.
    destruct (shape schema !! k) as [ty|] eqn:Hk; [|done]. simpl.
    destruct (Hfield k ty Hk) as [Hp Hd]. unfold field_value. by rewrite Hp, Hd. }
  assert (all_issues schema d1 = all_issues schema d2) as Hissues.
  { unfold all_issues, unknown_issues. rewrite Hstrip. f_equal. f_equal.
    apply Forall_fmap_ext_1, Forall_forall.
    intros [k ty] Hin%elem_of_map_to_list. simpl.
    destruct (Hfield k ty Hin) as [Hp _]. unfold field_issues. by rewrite Hp. }
  unfold parse. by rewrite Hvalid, Hobj, Hissues.
Qed.

(** The picked, stripping schema accepts the data exactly when the picked
    fields parse. *)
Lemma parse_pick_accepts mask schema (data : gmap string jsval) :
  (∃ out, parse (strip (pick mask schema)) data = inr out) ↔
  ∀ k ty, k ∈ mask → shape schema !! k = Some ty →
    ∃ v, ty (prop data k) = inr v.
Proof.
  split.
  - intros [out [Hvalid _]%parse_ok] k ty Hk Hty.
    apply valid_spec in Hvalid as [Hfields _]. apply (Hfields k ty).
    change (shape (strip (pick mask schema))) with (shape (pick mask schema)).
    rewrite pick_lookup. by rewrite decide_True.
  - intros Hfields. eexists. apply parse_ok. split; [|done].
    apply valid_spec. split; [|done]. intros k ty.
    change (shape (strip (pick mask schema))) with (shape (pick mask schema)).
    rewrite pick_lookup. case_decide; [|done]. by apply Hfields.
Qed.

Lemma parse_pick_rejects mask schema (data : gmap string jsval) k ty found i :
  k ∈ mask → shape schema !! k = Some ty →
  ty (prop data k) = inl found → i ∈ found →
  ∃ issues, parse (strip (pick mask schema)) data = inl (ZodError issues)
            ∧ at_key k i ∈ issues.
Proof.
  intros Hk Hty Hfound Hi.
  exists (all_issues (strip (pick mask schema)) data). split.
  - apply parse_invalid. apply not_true_is_false.
    intros Hvalid.
    destruct (proj1 (parse_pick_accepts mask schema data)) with (k := k) (ty := ty)
      as [v Hv]; [|done|done|congruence].
    eexists. apply parse_ok. by split.
  - apply all_issues_field with (issues := found); [|done].
    exists ty. split; [|done].
    change (shape (strip (pick mask schema))) with (shape (pick mask schema)).
    rewrite pick_lookup. by rewrite decide_True.
Qed.

(** The picked fields the data holds are kept, and a key of the result that
    the data does not hold is what a field schema makes of [undefined]. *)
Lemma parse_pick_keeps mask schema (data out : gmap string jsval) :
  parse (strip (pick mask schema)) data = inr out →
  (∀ k, k ∈ mask → k ∈ dom (shape schema) → k ∈ dom data → k ∈ dom out)
  ∧ (∀ k v, out !! k = Some v →
       k ∈ dom data
       ∨ ∃ ty, shape schema !! k = Some ty ∧ ty JUndefined = inr v).
Proof.
  intros Hparse.
  pose proof (proj1 (parse_pick_accepts mask schema data) (ex_intro _ out Hparse))
    as Hfields.
  apply parse_ok in Hparse as [_ ->].
  assert (∀ k, parsed_object (strip (pick mask schema)) data !! k
               = (if decide (k ∈ mask) then shape schema !! k else None)
                 ≫= field_value data k) as Hlookup.
  { intros k. rewrite parsed_object_lookup by done.
    change (shape (strip (pick mask schema))) with (shape (pick mask schema)).
    by rewrite pick_lookup. }
  split.
  - intros k Hk [ty Hty]%elem_of_dom Hdata. apply elem_of_dom.
    rewrite Hlookup, decide_True, Hty by done. simpl.
    destruct (Hfields k ty Hk Hty) as [v Hv]. unfold field_value. rewrite Hv.
    rewrite bool_decide_eq_false_2, andb_false_r; [by eexists|]. by intros Hn.
  - intros k v. rewrite Hlookup. case_decide as Hk; [|done].
    destruct (shape schema !! k) as [ty|] eqn:Hty; [|done]. simpl.
    unfold field_value. destruct (ty (prop data k)) as [|v'] eqn:Hv; [done|].
    destruct (decide (k ∈ dom data)) as [Hin|Hout]; [by left|].
    intros Hsome. right. exists ty. split; [done|].
    rewrite prop_absent in Hv by by apply not_elem_of_dom.
    by case_match; simplify_eq.
Qed.

Section Projection.

Context `{!Imports}.

Lemma anthropic_pick_cases api mask schema :
  anthropic_pick api = Some (mask, schema) →
  (api = "anthropic-text" ∧ mask = text_mask ∧ schema = AnthropicV1TextSchema)
  ∨ (api = "anthropic-chat" ∧ mask = chat_mask
     ∧ schema = AnthropicV1MessagesSchema).
Proof.
  unfold anthropic_pick.
  destruct (String.eqb_spec api "anthropic-text") as [->|_];
    [intros [= <- <-]; by left|].
  destruct (String.eqb_spec api "anthropic-chat") as [->|_];
    [intros [= <- <-]; by right | done].
Qed.

(** What the sanitizer is on the two anthropic APIs, in terms of the picked
    schema. *)
Lemma sanitize_anthropic req mask schema :
  anthropic_pick (outboundApi req) = Some (mask, schema) →
  (∀ out, getStrictlyValidatedBodyForAws req = inr out →
     ∃ params, parse (strip (pick mask schema)) (body req) = inr params
               ∧ (out = params
                  ∨ out = <["anthropic_version" := JStr "bedrock-2023-05-31"]> params)
               ∧ ∀ k, k ∈ mask → out !! k = params !! k)
  ∧ (∀ params, parse (strip (pick mask schema)) (body req) = inr params →
       ∃ out, getStrictlyValidatedBodyForAws req = inr out)
  ∧ (∀ e, parse (strip (pick mask schema)) (body req) = inl e →
       getStrictlyValidatedBodyForAws req = inl e).
Proof.
  intros [(Hapi & -> & ->) | (Hapi & -> & ->)]%anthropic_pick_cases.
  - rewrite (@sanitize_text _ _ Hapi). split; [|split].
    + intros out Hout. exists out. split; [done|]. split; [by left | done].
    + intros params Hp. by exists params.
    + done.
  - rewrite (@sanitize_chat _ _ Hapi).
    destruct (parse _ (body req)) as [e|params].
    + split; [done|]. split; [done|]. by intros e' [= ->].
    + split; [|split; [|done]].
      * intros out [= <-]. exists params. split; [done|]. split; [by right|].
        intros k Hk. rewrite lookup_insert_ne; [done|].
        intros <-. by apply version_not_in_chat_mask.
      * intros ? _. by eexists.
Qed.

(** X9. On the two anthropic APIs the sanitizer sees of a body only the
    fields of its mask: two bodies that agree on them are sanitized to the
    same body or rejected with the same error, whatever else they hold. *)
Theorem sanitizer_ignores_other_fields (req : Request)
    (other : gmap string jsval) (mask : gset string) (schema : ZodObject) :
  anthropic_pick (outboundApi req) = Some (mask, schema) →
  (∀ k, k ∈ mask → body req !! k = other !! k) →
  getStrictlyValidatedBodyForAws (with_body req other)
  = getStrictlyValidatedBodyForAws req.
Proof.
  intros Hpick Hagree.
  assert (parse (strip (pick mask schema)) other
          = parse (strip (pick mask schema)) (body req)) as Hparse.
  { apply parse_strip_agree; [done|].
    intros k Hk%pick_dom. symmetry. by apply Hagree. }
  apply anthropic_pick_cases in Hpick as [(Hapi & -> & ->) | (Hapi & -> & ->)].
  - rewrite (@sanitize_text _ req Hapi), (@sanitize_text _ (with_body req other) Hapi).
    exact Hparse.
  - rewrite (@sanitize_chat _ req Hapi), (@sanitize_chat _ (with_body req other) Hapi).
    simpl. by rewrite Hparse.
Qed.

(** X10. On the two anthropic APIs the sanitizer returns a body exactly when
    every field of the vendor schema that the mask names parses on the
    body; when one does not, it throws a validation error that reports the
    issues of that field under its name; a returned body keeps every such
    field the client sent; and a masked key of the returned body that the
    client did not send is what the field's schema makes of undefined (a
    default). *)
Theorem anthropic_validation (req : Request) (mask : gset string)
    (schema : ZodObject) :
  anthropic_pick (outboundApi req) = Some (mask, schema) →
  ((∃ out, getStrictlyValidatedBodyForAws req = inr out) ↔
   ∀ k ty, k ∈ mask → shape schema !! k = Some ty →
     ∃ v, ty (prop (body req) k) = inr v)
  ∧ (∀ k ty found i,
       k ∈ mask → shape schema !! k = Some ty →
       ty (prop (body req) k) = inl found → i ∈ found →
       ∃ issues, getStrictlyValidatedBodyForAws req = inl (ZodError issues)
                 ∧ at_key k i ∈ issues)
  ∧ (∀ out k,
       getStrictlyValidatedBodyForAws req = inr out →
       k ∈ mask → k ∈ dom (shape schema) → k ∈ dom (body req) → k ∈ dom out)
  ∧ (∀ out k v,
       getStrictlyValidatedBodyForAws req = inr out →
       k ∈ mask → out !! k = Some v →
       k ∈ dom (body req)
       ∨ ∃ ty, shape schema !! k = Some ty ∧ ty JUndefined = inr v).
Proof.
  intros Hpick.
  destruct (sanitize_anthropic req mask schema Hpick) as (Hout & Hin & Herr).
  split; [|split; [|split]].
  - rewrite <- parse_pick_accepts. split.
    + intros [out (params & Hp & _)%Hout]. by exists params.
    + intros [params Hp]. by apply (Hin params).
  - intros k ty found i Hk Hty Hfound Hi.
    destruct (parse_pick_rejects mask schema (body req) k ty found i)
      as (issues & Hthrow & Hissue); [done..|].
    exists issues. split; [by apply Herr | done].
  - intros out k (params & Hp & _ & Hsame)%Hout Hk Hshape Hbody.
    apply elem_of_dom. rewrite (Hsame k Hk). apply elem_of_dom.
    by apply (parse_pick_keeps mask schema (body req) params Hp).
  - intros out k v (params & Hp & _ & Hsame)%Hout Hk Hv.
    rewrite (Hsame k Hk) in Hv.
    by apply (parse_pick_keeps mask schema (body req) params Hp).
Qed.

End Projection.

Lemma sanitizer_ignores_other_fields_witness :
  @getStrictlyValidatedBodyForAws Fixture.imports
    (with_body Fixture.stream_request Fixture.chat_body)
  = @getStrictlyValidatedBodyForAws Fixture.imports Fixture.stream_request.
Proof.
  apply (@sanitizer_ignores_other_fields Fixture.imports Fixture.stream_request
           Fixture.chat_body chat_mask Fixture.messages_schema).
  - reflexivity.
  - intros k Hk. unfold Fixture.stream_request. simpl.
    rewrite !lookup_insert_ne; [done| |].
    + intros <-. revert Hk. refine (bool_decide_unpack _ _). vm_compute. exact I.
    + intros <-. revert Hk. refine (bool_decide_unpack _ _). vm_compute. exact I.
Defined.

Lemma anthropic_validation_witness :
  ∃ issues,
    @getStrictlyValidatedBodyForAws Fixture.imports Cases.hot_request
    = inl (ZodError issues)
    ∧ at_key "temperature" (issue "Expected number") ∈ issues.
Proof.
  destruct (@anthropic_validation Fixture.imports Cases.hot_request chat_mask
              Fixture.messages_schema eq_refl) as (_ & Hreject & _).
  apply (Hreject "temperature" (z_optional z_number) [issue "Expected number"]).
  - refine (bool_decide_unpack _ _). vm_compute. exact I.
  - vm_compute. reflexivity.
  - reflexivity.
  - by left.
Defined.

(** ** What is handed to the signer *)

Section Handover.

Context `{!Imports, !SignerPrimitives}.

(** X11. When a run returns, the request handed over is the signature, under
    the credential extracted from the key the pool assigned, of a POST
    request over https whose body is the serialisation of the sanitized body
    (not of the body received), whose headers are exactly Host,
    content-type and one accept header, with the host computed from the
    credential's region as Host; the hostname is that host, or localhost
    when the host is empty. *)
Theorem signed_request_contents (longDate : string) (req : Request)
    (w w' : World) :
  signAwsRequest longDate req w = (w', inr tt) →
  ∃ k c params r,
    keyPool_get (prop (body req) "model") "aws" = inr k
    ∧ getCredentialParts k = ([], inr c)
    ∧ getStrictlyValidatedBodyForAws req = inr params
    ∧ signedRequest w' = Some (sign longDate r c)
    ∧ HttpRequest.method r = "POST"
    ∧ HttpRequest.protocol r = "https:"
    ∧ HttpRequest.body r = JSON_stringify params
    ∧ HttpRequest.headers r !! "Host"
      = Some (JsString.replace AMZ_HOST "%REGION%" (region c))
    ∧ HttpRequest.headers r !! "content-type" = Some "application/json"
    ∧ dom (HttpRequest.headers r)
      = {[ "Host"; "content-type";
           if truthy (prop (body req) "stream")
           then "x-amzn-bedrock-accept" else "accept" ]}
    ∧ HttpRequest.hostname r
      = HttpRequest.or_else (JsString.replace AMZ_HOST "%REGION%" (region c))
          "localhost".
Proof.
  intros (k & c & profile & id & params & Hk & Hc & _ & Hb & Hs)%signAwsRequest_inv.
  exists k, c, params, (built_request req c id params).
  repeat (split; [done|]).
  unfold built_request, newRequest.
  destruct (truthy (prop (body req) "stream")); simpl.
  - repeat (split; [done|]). done.
  - repeat (split; [done|]). done.
Qed.

End Handover.

Lemma signed_request_contents_witness :
  ∃ k c params r,
    @getStrictlyValidatedBodyForAws Fixture.imports Fixture.stream_request
    = inr params
    ∧ getCredentialParts k = ([], inr c)
    ∧ signedRequest
        (@signAwsRequest Fixture.imports Fixture.primitives Fixture.now
           Fixture.stream_request Fixture.empty_world).1
      = Some (@sign Fixture.primitives Fixture.now r c)
    ∧ HttpRequest.body r = @JSON_stringify Fixture.imports params.
Proof.
  destruct (@signed_request_contents Fixture.imports Fixture.primitives
              Fixture.now Fixture.stream_request Fixture.empty_world _ eq_refl)
    as (k & c & params & r & _ & Hc & Hb & Hs & _ & _ & Hbody & _).
  exists k, c, params, r. auto.
Defined.

(** ** A model that is not a string *)

Section AnyModel.

Context `{!Imports, !SignerPrimitives}.


End AnyModel.

